(** * Beartype error-cause sleuth: [CauseSleuth]

    A shallow embedding of [beartype/_decor/_error/_errorsleuth.py].

    Python objects live in a heap of slot dictionaries, methods are
    computations in a state-and-exception monad over that heap, and every
    call that leaves the module (the hint utilities, the dispatch table, the
    getter functions of [_errortype] and [errormain]) is recorded in a trace
    so that statements can say which collaborators a method consulted. *)

From Stdlib Require Import ZArith Ascii.
From stdpp Require Import base option list strings pretty gmap.

Set Warnings "-register-all".

(** ** Python values *)

(** Hint signs ([HintSign] objects) are identified by their name. *)
Abbreviation Sign := string.

(** Object references. *)
Abbreviation loc := positive.

(** The partition of Python objects that the builtins used by the module can
    observe: [x is None], [isinstance(x, int)], [isinstance(x, str)],
    [isinstance(x, tuple)], [callable(x)]; signs are kept apart because they
    are the keys of the sign sets and of the dispatch table. *)
Inductive Value : Type :=
  | VNone
  | VInt (z : Z)
  | VStr (s : string)
  | VTuple (items : list Value)
  | VSign (sign : Sign)
  | VCallable (name : string)   (* any other callable: function, class, ... *)
  | VObject (name : string).    (* any other object *)

(** [callable(x)]. *)
Definition callable (v : Value) : bool :=
  match v with VCallable _ => true | _ => false end.

(** [isinstance(x, str)]. *)
Definition isinstance_str (v : Value) : bool :=
  match v with VStr _ => true | _ => false end.

(** [isinstance(x, NoneTypeOr[int])]. *)
Definition isinstance_NoneTypeOr_int (v : Value) : bool :=
  match v with VNone | VInt _ => true | _ => false end.

(** [isinstance(x, tuple)]. *)
Definition isinstance_tuple (v : Value) : bool :=
  match v with VTuple _ => true | _ => false end.

(** [x is None]. *)
Definition is_None (v : Value) : bool :=
  match v with VNone => true | _ => false end.

(** [x in S] for a frozen set [S] of signs. *)
Definition sign_in (v : Value) (S : gset Sign) : bool :=
  match v with VSign s => bool_decide (s ∈ S) | _ => false end.

(** ** Exceptions and outcomes *)

Inductive Exn : Type :=
  | _BeartypeCallHintPepRaiseException (msg : string)
  | AssertionError (msg : string)
  | TypeError (arg_name : string)       (* call that does not bind [arg_name] *)
  | AttributeError (attr_name : string) (* attribute read before assignment *)
  | HintError (cls msg : string).       (* raised by a hint utility *)

Inductive Outcome (A : Type) : Type :=
  | Return (a : A)
  | Raise (e : Exn).
Arguments Return {A} a.
Arguments Raise {A} e.

(** ** Heap, trace and the monad *)

(** The branch of [get_cause_or_none] that chose the getter it defers to. *)
Inductive Route : Type :=
  | ViaInstanceTypesTuple
  | ViaInstanceType
  | ViaTypeInstanceOrigin
  | ViaSignTable (hint_sign : Value).

(** Calls leaving the module. *)
Inductive Event : Type :=
  | EvSanify (hint exception_prefix : Value)
  | EvIsHintPep (hint : Value)
  | EvGetSign (hint : Value)
  | EvGetArgs (hint : Value)
  | EvIsIgnorable (hint : Value)
  | EvIsHintPepArgs (hint : Value)
  | EvTableGet (hint_sign : Value)
  | EvGetter (via : Route) (self : loc).

(** An object is the dictionary of its assigned slots. *)
Record State : Type := mkState {
  heap : gmap loc (gmap string Value);
  trace : list Event;
}.

(** The state [σ] after the calls [events]. *)
Definition after (σ : State) (events : list Event) : State :=
  mkState (heap σ) (trace σ ++ events).

Definition M (A : Type) : Type := State → State * Outcome A.

Definition ret {A} (a : A) : M A := λ σ, (σ, Return a).

Definition raise {A} (e : Exn) : M A := λ σ, (σ, Raise e).

Definition bind {A B} (m : M A) (k : A → M B) : M B :=
  λ σ, match m σ with
       | (σ', Return a) => k a σ'
       | (σ', Raise e) => (σ', Raise e)
       end.

Notation "'let!' x := m 'in' k" := (bind m (λ x, k))
  (at level 10, x name, m at level 100, k at level 200,
   format "'[v' 'let!'  x  :=  m  'in'  '/' k ']'").
Notation "'do!' m 'in' k" := (bind m (λ _, k))
  (at level 10, m at level 100, k at level 200,
   format "'[v' 'do!'  m  'in'  '/' k ']'").

Definition lift {A} (r : Outcome A) : M A := λ σ, (σ, r).

Definition log (e : Event) : M unit :=
  λ σ, (mkState (heap σ) (trace σ ++ [e]), Return tt).

(** [object.__new__]: a fresh object none of whose slots is assigned. *)
Definition alloc : M loc :=
  λ σ, let l := fresh (dom (heap σ)) in
       (mkState (<[l := ∅]> (heap σ)) (trace σ), Return l).

(** ** The class *)

Definition __slots__ : list string :=
  [ "cause_indent"; "exception_prefix"; "func"; "hint_sign"; "hint_childs";
    "pith"; "random_int"; "_hint" ].

(** The language does not fix the order in which a frozen set of strings is
    iterated; the order in which it is written is taken. The binding of
    keyword arguments by name makes [permute] independent of it when every
    parameter has an argument; on a sleuth with several unassigned slots
    the order decides which of them the [AttributeError] names. *)
Definition _INIT_PARAM_NAMES : list string :=
  [ "cause_indent"; "exception_prefix"; "func"; "hint"; "pith"; "random_int" ].

(** Reading a slot: [AttributeError] while it is unassigned. *)
Definition get_slot (self : loc) (name : string) : M Value :=
  λ σ, match heap σ !! self ≫= (.!! name) with
       | Some v => (σ, Return v)
       | None => (σ, Raise (AttributeError name))
       end.

(** Assigning a slot: only the names of [__slots__] can be assigned. *)
Definition set_slot (self : loc) (name : string) (v : Value) : M unit :=
  λ σ, match heap σ !! self with
       | Some o =>
           if bool_decide (name ∈ __slots__)
           then (mkState (<[self := <[name := v]> o]> (heap σ)) (trace σ),
                 Return tt)
           else (σ, Raise (AttributeError name))
       | None => (σ, Raise (AttributeError name))
       end.

(** The [hint] property is backed by the [_hint] slot; every other name read
    by the module is a slot. *)
Definition getattr (self : loc) (name : string) : M Value :=
  if bool_decide (name = "hint") then get_slot self "_hint"
  else get_slot self name.

(** The value [getattr] reads in a heap, if any. *)
Definition attr (h : gmap loc (gmap string Value)) (self : loc)
    (name : string) : option Value :=
  h !! self ≫= (.!! (if bool_decide (name = "hint") then "_hint" else name)).

(** [assert cond, msg]. *)
Definition assert (cond : bool) (msg : string) : M unit :=
  if cond then ret tt else raise (AssertionError msg).

(** Keyword arguments, in the order in which they were passed. *)
Abbreviation Kwargs := (list (string * Value)).

Fixpoint kwargs_get (name : string) (kwargs : Kwargs) : option Value :=
  match kwargs with
  | [] => None
  | (k, v) :: rest => if bool_decide (k = name) then Some v
                      else kwargs_get name rest
  end.

(** [kwargs[name] = v]. *)
Fixpoint kwargs_set (name : string) (v : Value) (kwargs : Kwargs) : Kwargs :=
  match kwargs with
  | [] => [(name, v)]
  | (k, w) :: rest => if bool_decide (k = name) then (k, v) :: rest
                      else (k, w) :: kwargs_set name v rest
  end.

(** The argument [permute] passes to [__init__] for the parameter [name]:
    the keyword argument when there is one, the attribute otherwise. *)
Definition argument (h : gmap loc (gmap string Value)) (self : loc)
    (kwargs : list (string * Value)) (name : string) : option Value :=
  match kwargs_get name kwargs with
  | Some v => Some v
  | None => attr h self name
  end.

(** The double quote character of the message of [get_cause_or_none]. *)
Definition dquote : string := String (ascii_of_nat 34) EmptyString.

(** [str(type(self))]. *)
Definition self_class : string :=
  "<class 'beartype._decor._error._errorsleuth.CauseSleuth'>".

(** [sub in s] on strings. *)
Fixpoint str_in (sub s : string) : bool :=
  String.prefix sub s ||
  match s with
  | EmptyString => false
  | String _ rest => str_in sub rest
  end.

(** ** The collaborators

    Everything the module imports: the hint utilities, the two sign sets, the
    three getters of [_errortype] and the dispatch table of [errormain]. A
    getter receives the sleuth by reference and runs in the same heap. *)
Class Collaborators : Type := {
  sanify_hint_child : Value → Value → Outcome Value;
  is_hint_pep : Value → bool;
  get_hint_pep_sign : Value → Outcome Sign;
  get_hint_pep_args : Value → list Value;
  is_hint_ignorable : Value → bool;
  is_hint_pep_args : Value → bool;
  repr : Value → string;
  HINT_SIGNS_SUPPORTED_DEEP : gset Sign;
  HINT_SIGNS_ORIGIN_ISINSTANCEABLE : gset Sign;
  get_cause_or_none_instance_types_tuple : loc → M (option string);
  get_cause_or_none_instance_type : loc → M (option string);
  get_cause_or_none_type_instance_origin : loc → M (option string);
  PEP_HINT_SIGN_TO_GET_CAUSE_FUNC : gmap Sign (loc → M (option string));
}.

Section Sleuth.
Context `{Collaborators}.

(** [str(x)] as an f-string field formats it: a string is itself, any other
    object falls back on its [repr]. *)
Definition str (v : Value) : string :=
  match v with VStr s => s | _ => repr v end.

(** The setter of the [hint] property. *)
Definition hint_setter (self : loc) (hint : Value) : M unit :=
  let! exception_prefix := get_slot self "exception_prefix" in
  do! log (EvSanify hint exception_prefix) in
  let! hint := lift (sanify_hint_child hint exception_prefix) in
  do! log (EvIsHintPep hint) in
  do! (if is_hint_pep hint then
         do! log (EvGetSign hint) in
         let! sign := lift (get_hint_pep_sign hint) in
         do! set_slot self "hint_sign" (VSign sign) in
         do! log (EvGetArgs hint) in
         set_slot self "hint_childs" (VTuple (get_hint_pep_args hint))
       else ret tt) in
  set_slot self "_hint" hint.

Definition __init__ (self : loc)
    (func pith hint cause_indent exception_prefix random_int : Value)
    : M unit :=
  do! assert (callable func) (repr func +:+ " not callable.") in
  do! assert (isinstance_str cause_indent)
        (repr cause_indent +:+ " not string.") in
  do! assert (isinstance_str exception_prefix)
        (repr exception_prefix +:+ " not string.") in
  do! assert (isinstance_NoneTypeOr_int random_int)
        (repr random_int +:+ " not integer or " +:+ dquote +:+ "None"
         +:+ dquote +:+ ".") in
  do! set_slot self "func" func in
  do! set_slot self "pith" pith in
  do! set_slot self "cause_indent" cause_indent in
  do! set_slot self "exception_prefix" exception_prefix in
  do! set_slot self "random_int" random_int in
  do! set_slot self "hint_sign" VNone in
  do! set_slot self "hint_childs" VNone in
  hint_setter self hint.

(** The parameters of [__init__] after [self], in signature order. *)
Definition init_params : list string :=
  [ "func"; "pith"; "hint"; "cause_indent"; "exception_prefix"; "random_int" ].

(** Binding of one keyword-only call argument. *)
Definition bind_arg (name : string) (kwargs : Kwargs) : M Value :=
  match kwargs_get name kwargs with
  | Some v => ret v
  | None => raise (TypeError name)
  end.

(** The call of the class on unpacked keyword arguments: allocation, binding
    of the keyword arguments to the parameters of [__init__], then the body
    of [__init__]. *)
Definition CauseSleuth (kwargs : Kwargs) : M loc :=
  let! self := alloc in
  do! match filter (λ kv, kv.1 ∉ init_params) kwargs with
      | (k, _) :: _ => raise (TypeError k)
      | [] => ret tt
      end in
  let! func := bind_arg "func" kwargs in
  let! pith := bind_arg "pith" kwargs in
  let! hint := bind_arg "hint" kwargs in
  let! cause_indent := bind_arg "cause_indent" kwargs in
  let! exception_prefix := bind_arg "exception_prefix" kwargs in
  let! random_int := bind_arg "random_int" kwargs in
  do! __init__ self func pith hint cause_indent exception_prefix random_int in
  ret self.

(** [PEP_HINT_SIGN_TO_GET_CAUSE_FUNC.get(hint_sign, None)]. *)
Definition table_get (hint_sign : Value) : option (loc → M (option string)) :=
  match hint_sign with
  | VSign s => PEP_HINT_SIGN_TO_GET_CAUSE_FUNC !! s
  | _ => None
  end.

(** The message of the exception raised for a hint without getter. *)
Definition unsupported_msg (exception_prefix hint : Value) : string :=
  str exception_prefix +:+ " type hint " +:+ repr hint +:+
  " unsupported (i.e., no " +:+ dquote +:+ "get_cause_or_none_" +:+ dquote +:+
  "-prefixed getter function defined " +:+ "for this category of hint).".

(** The test of the third branch of [get_cause_or_none], with the short
    circuits of [and] and [or]. *)
Definition checked_shallowly (self : loc) : M bool :=
  let! hint_sign := get_slot self "hint_sign" in
  if sign_in hint_sign HINT_SIGNS_ORIGIN_ISINSTANCEABLE then
    let! hint := getattr self "hint" in
    do! log (EvIsHintPepArgs hint) in
    if negb (is_hint_pep_args hint) then ret true
    else
      let! hint_sign := get_slot self "hint_sign" in
      ret (negb (sign_in hint_sign HINT_SIGNS_SUPPORTED_DEEP))
  else ret false.

(** The branches of [get_cause_or_none] below the ignorability test: the
    value they assign to the local variable [get_cause_or_none], tagged with
    the branch that assigned it. *)
Definition select_getter (self : loc) : M (Route * (loc → M (option string))) :=
  let! hint_sign := get_slot self "hint_sign" in
  if is_None hint_sign then
    let! hint := getattr self "hint" in
    if isinstance_tuple hint then
      ret (ViaInstanceTypesTuple, get_cause_or_none_instance_types_tuple)
    else
      ret (ViaInstanceType, get_cause_or_none_instance_type)
  else
    let! shallow := checked_shallowly self in
    if shallow then
      ret (ViaTypeInstanceOrigin, get_cause_or_none_type_instance_origin)
    else
      let! hint_sign := get_slot self "hint_sign" in
      do! log (EvTableGet hint_sign) in
      match table_get hint_sign with
      | Some getter => ret (ViaSignTable hint_sign, getter)
      | None =>
          let! exception_prefix := get_slot self "exception_prefix" in
          let! hint := getattr self "hint" in
          raise (_BeartypeCallHintPepRaiseException
                   (unsupported_msg exception_prefix hint))
      end.

Definition get_cause_or_none (self : loc) : M (option string) :=
  let! hint := getattr self "hint" in
  do! log (EvIsIgnorable hint) in
  if is_hint_ignorable hint then ret None
  else
    let! selected := select_getter self in
    do! log (EvGetter selected.1 self) in
    selected.2 self.

(** The message of the exception raised by [permute]. *)
Definition unrecognized_msg (arg_name : string) : string :=
  self_class +:+ ".__init__() parameter " +:+ arg_name +:+ " unrecognized.".

(** First loop of [permute], over [kwargs.keys()]. *)
Fixpoint permute_check (arg_names : list string) : M unit :=
  match arg_names with
  | [] => ret tt
  | arg_name :: rest =>
      if bool_decide (arg_name ∉ _INIT_PARAM_NAMES) then
        raise (_BeartypeCallHintPepRaiseException (unrecognized_msg arg_name))
      else permute_check rest
  end.

(** Second loop of [permute], over [_INIT_PARAM_NAMES]. *)
Fixpoint permute_defaults (self : loc) (arg_names : list string)
    (kwargs : Kwargs) : M Kwargs :=
  match arg_names with
  | [] => ret kwargs
  | arg_name :: rest =>
      match kwargs_get arg_name kwargs with
      | None =>
          let! v := getattr self arg_name in
          permute_defaults self rest (kwargs_set arg_name v kwargs)
      | Some _ => permute_defaults self rest kwargs
      end
  end.

Definition permute (self : loc) (kwargs : Kwargs) : M loc :=
  do! permute_check kwargs.*1 in
  let! kwargs := permute_defaults self _INIT_PARAM_NAMES kwargs in
  CauseSleuth kwargs.

(** The first keyword that the first loop of [permute] rejects. *)
Definition first_unrecognized (arg_names : list string) : option string :=
  find (λ arg_name, bool_decide (arg_name ∉ _INIT_PARAM_NAMES)) arg_names.

(** ** The object built by [__init__] *)

(** The slots after the assignments that precede the setter of [hint]. *)
Definition unclassified_object
    (func pith cause_indent exception_prefix random_int : Value)
    : gmap string Value :=
  <["hint_childs" := VNone]> (<["hint_sign" := VNone]>
  (<["random_int" := random_int]> (<["exception_prefix" := exception_prefix]>
  (<["cause_indent" := cause_indent]> (<["pith" := pith]>
  (<["func" := func]> ∅)))))).

(** The slots after the setter of [hint] has stored the sanitized [hint]. *)
Definition built_object
    (func pith cause_indent exception_prefix random_int hint : Value)
    : gmap string Value :=
  let o := unclassified_object func pith cause_indent exception_prefix
             random_int in
  <["_hint" := hint]>
    (if is_hint_pep hint then
       match get_hint_pep_sign hint with
       | Return sign =>
           <["hint_childs" := VTuple (get_hint_pep_args hint)]>
             (<["hint_sign" := VSign sign]> o)
       | Raise _ => o
       end
     else o).

(** A hint whose sign can be read when it is PEP-compliant. *)
Definition classifiable (hint : Value) : Prop :=
  is_hint_pep hint = true → ∃ sign, get_hint_pep_sign hint = Return sign.

(** The keyword arguments bind the parameters of [__init__] to values that
    pass its assertions. *)
Definition binds (kwargs : Kwargs)
    (func pith raw cause_indent exception_prefix random_int : Value) : Prop :=
  filter (λ kv, kv.1 ∉ init_params) kwargs = [] ∧
  kwargs_get "func" kwargs = Some func ∧
  kwargs_get "pith" kwargs = Some pith ∧
  kwargs_get "hint" kwargs = Some raw ∧
  kwargs_get "cause_indent" kwargs = Some cause_indent ∧
  kwargs_get "exception_prefix" kwargs = Some exception_prefix ∧
  kwargs_get "random_int" kwargs = Some random_int ∧
  callable func = true ∧
  isinstance_str cause_indent = true ∧
  isinstance_str exception_prefix = true ∧
  isinstance_NoneTypeOr_int random_int = true.

(** The arguments that [permute] passes to [__init__] pass its
    assertions. *)
Definition passes (h : gmap loc (gmap string Value)) (self : loc)
    (kwargs : Kwargs)
    (func pith raw cause_indent exception_prefix random_int : Value) : Prop :=
  argument h self kwargs "func" = Some func ∧
  argument h self kwargs "pith" = Some pith ∧
  argument h self kwargs "hint" = Some raw ∧
  argument h self kwargs "cause_indent" = Some cause_indent ∧
  argument h self kwargs "exception_prefix" = Some exception_prefix ∧
  argument h self kwargs "random_int" = Some random_int ∧
  callable func = true ∧
  isinstance_str cause_indent = true ∧
  isinstance_str exception_prefix = true ∧
  isinstance_NoneTypeOr_int random_int = true.

(** ** Well-formed sleuths *)

(** The classification slots of [o] are those of the stored hint [hint]. *)
Definition classified (o : gmap string Value) (hint : Value) : Prop :=
  o !! "_hint" = Some hint ∧
  if is_hint_pep hint then
    ∃ sign, get_hint_pep_sign hint = Return sign ∧
            o !! "hint_sign" = Some (VSign sign) ∧
            o !! "hint_childs" = Some (VTuple (get_hint_pep_args hint))
  else o !! "hint_sign" = Some VNone ∧ o !! "hint_childs" = Some VNone.

(** What [__init__] establishes: the parameters pass its assertions, the
    stored hint is the result of sanitizing some hint under the stored
    prefix, and the classification slots are those of the stored hint. *)
Definition sleuth_wf (o : gmap string Value) : Prop :=
  ∃ func pith cause_indent exception_prefix random_int raw hint,
    o !! "func" = Some func ∧ callable func = true ∧
    o !! "pith" = Some pith ∧
    o !! "cause_indent" = Some cause_indent ∧
    isinstance_str cause_indent = true ∧
    o !! "exception_prefix" = Some exception_prefix ∧
    isinstance_str exception_prefix = true ∧
    o !! "random_int" = Some random_int ∧
    isinstance_NoneTypeOr_int random_int = true ∧
    sanify_hint_child raw exception_prefix = Return hint ∧
    classified o hint.


(** The test of the third branch of [get_cause_or_none] on a sign and a
    hint. *)
Definition shallow (sign : Sign) (hint : Value) : Prop :=
  sign ∈ HINT_SIGNS_ORIGIN_ISINSTANCEABLE ∧
  (is_hint_pep_args hint = false ∨ sign ∉ HINT_SIGNS_SUPPORTED_DEEP).

(** The boolean computed by [checked_shallowly]. *)
Definition shallowb (sign : Sign) (hint : Value) : bool :=
  bool_decide (sign ∈ HINT_SIGNS_ORIGIN_ISINSTANCEABLE) &&
  (negb (is_hint_pep_args hint) ||
   negb (bool_decide (sign ∈ HINT_SIGNS_SUPPORTED_DEEP))).

(** The calls [checked_shallowly] makes for a sign. *)
Definition shallow_events (sign : Sign) (hint : Value) : list Event :=
  if bool_decide (sign ∈ HINT_SIGNS_ORIGIN_ISINSTANCEABLE)
  then [EvIsHintPepArgs hint] else [].

(** The calls the setter of [hint] makes. *)
Definition hint_events (raw exception_prefix hint : Value) : list Event :=
  EvSanify raw exception_prefix :: EvIsHintPep hint ::
  (if is_hint_pep hint then [EvGetSign hint; EvGetArgs hint] else []).

(** Between [σ] and [σ'] the hint [raw] was sanitized, the sanitized hint was
    classified and stored in the sleuth [new], in that order and with no
    other call. *)
Definition sanified_then_classified (σ σ' : State) (new : loc)
    (raw exception_prefix : Value) : Prop :=
  ∃ hint o,
    sanify_hint_child raw exception_prefix = Return hint ∧
    heap σ' !! new = Some o ∧
    classified o hint ∧
    trace σ' = trace σ ++ hint_events raw exception_prefix hint.

End Sleuth.

(** ** A concrete catalogue

    A small instance of the collaborators, used to run the methods. *)
Module Catalogue.

(** [repr] of the items of a tuple, separated by commas. *)
Definition repr_items (repr_of : Value → string) (items : list Value) : string :=
  match items with
  | [] => EmptyString
  | [v] => repr_of v +:+ ","
  | v :: rest => foldl (λ acc w, acc +:+ ", " +:+ repr_of w) (repr_of v) rest
  end.

Fixpoint repr_of (v : Value) : string :=
  match v with
  | VNone => "None"
  | VInt z => pretty z
  | VStr s => "'" +:+ s +:+ "'"
  | VTuple items => "(" +:+ repr_items repr_of items +:+ ")"
  | VSign s => s
  | VCallable name => name
  | VObject name => name
  end.

(** The hints of the catalogue. *)
Definition Any := VObject "typing.Any".
Definition cls_int := VCallable "<class 'int'>".
Definition cls_str := VCallable "<class 'str'>".
Definition List := VObject "typing.List".
Definition List_int := VObject "typing.List[cls_int]".
Definition Iterable_int := VObject "collections.abc.Iterable[cls_int]".
Definition NDArray := VObject "numpy.typing.NDArray".
Definition Annotated_ndarray := VObject "typing.Annotated[numpy.ndarray]".
Definition Frob_int := VObject "Frob[cls_int]".

Definition is_hint (h v : Value) : bool :=
  match h, v with
  | VObject a, VObject b => bool_decide (a = b)
  | _, _ => false
  end.

Definition sign_of (hint : Value) : option Sign :=
  if is_hint Any hint then Some "Any"
  else if is_hint List hint then Some "List"
  else if is_hint List_int hint then Some "List"
  else if is_hint Iterable_int hint then Some "Iterable"
  else if is_hint Annotated_ndarray hint then Some "Annotated"
  else if is_hint Frob_int hint then Some "frobnicate"
  else None.

Definition args_of (hint : Value) : list Value :=
  if is_hint List_int hint then [cls_int]
  else if is_hint Iterable_int hint then [cls_int]
  else if is_hint Annotated_ndarray hint then [VObject "numpy.ndarray"]
  else if is_hint Frob_int hint then [cls_int]
  else [].

Definition getter (cause : string) : loc → M (option string) :=
  λ _, ret (Some cause).

#[export] Instance catalogue : Collaborators := {|
  sanify_hint_child hint _ :=
    if is_hint NDArray hint then Return Annotated_ndarray
    else if is_hint (VObject "typing.Unsupported") hint
    then Raise (HintError "BeartypeDecorHintPepUnsupportedException"
                  "unsupported")
    else Return hint;
  is_hint_pep hint := bool_decide (is_Some (sign_of hint));
  get_hint_pep_sign hint :=
    match sign_of hint with
    | Some s => Return s
    | None => Raise (HintError "BeartypeDecorHintPepSignException" "no sign")
    end;
  get_hint_pep_args := args_of;
  is_hint_ignorable hint := is_hint Any hint;
  is_hint_pep_args hint :=
    match args_of hint with [] => false | _ => true end;
  repr := repr_of;
  HINT_SIGNS_SUPPORTED_DEEP := {[ "List"; "Union"; "Annotated" ]};
  HINT_SIGNS_ORIGIN_ISINSTANCEABLE := {[ "List"; "Iterable" ]};
  get_cause_or_none_instance_types_tuple := getter "not any of the classes";
  get_cause_or_none_instance_type := getter "not instance of the class";
  get_cause_or_none_type_instance_origin := getter "not instance of origin";
  PEP_HINT_SIGN_TO_GET_CAUSE_FUNC :=
    {[ "List" := getter "item not instance";
       "Union" := getter "no member matches";
       "Annotated" := getter "validator fails" ]};
|}.

(** The keyword arguments of a top-level sleuth for [hint] and [pith]. *)
Definition top_kwargs (hint pith : Value) : Kwargs :=
  [ ("func", VCallable "muh_func"); ("pith", pith); ("hint", hint);
    ("cause_indent", VStr EmptyString);
    ("exception_prefix", VStr "@beartyped muh_func() parameter x");
    ("random_int", VNone) ].

Definition empty_state : State := mkState ∅ [].

(** The state after the construction of one sleuth, at reference [1]. *)
Definition state_of (hint pith : Value) : State :=
  (CauseSleuth (top_kwargs hint pith) empty_state).1.


(** The sleuth of [state_of]. *)
Definition object_of (hint pith : Value) : gmap string Value :=
  default ∅ (heap (state_of hint pith) !! 1%positive).

End Catalogue.


(** * Beartype configurations: [BeartypeConf]

    A shallow embedding of [beartype/_conf/confcls.py]. The two caches of
    [beartype._conf.confcache] and the heap of configurations make up the
    state; the lock around the body of [__new__] has no effect on a single
    thread and is left out. *)
Module Conf.

(** The objects passed as configuration parameters: [None], booleans,
    integers, members of the enumeration [BeartypeStrategy] (identified by
    name) and other hashable objects that are equal to themselves only. *)
Inductive Param : Type :=
  | PNone
  | PBool (b : bool)
  | PInt (z : Z)
  | PStrategy (member : string)
  | PObject (id : string).

(** [isinstance(x, bool)]: an integer is not a boolean. *)
Definition isinstance_bool (p : Param) : bool :=
  match p with PBool _ => true | _ => false end.

(** [isinstance(x, NoneTypeOr[bool])]. *)
Definition isinstance_NoneTypeOr_bool (p : Param) : bool :=
  match p with PNone | PBool _ => true | _ => false end.

(** [isinstance(x, BeartypeStrategy)]. *)
Definition isinstance_BeartypeStrategy (p : Param) : bool :=
  match p with PStrategy _ => true | _ => false end.

(** [a == b]: a boolean is the integer [0] or [1]. *)
Definition py_eq (a b : Param) : bool :=
  match a, b with
  | PNone, PNone => true
  | PBool x, PBool y => Bool.eqb x y
  | PBool x, PInt z => (Z.b2z x =? z)%Z
  | PInt z, PBool x => (z =? Z.b2z x)%Z
  | PInt x, PInt y => (x =? y)%Z
  | PStrategy x, PStrategy y => bool_decide (x = y)
  | PObject x, PObject y => bool_decide (x = y)
  | _, _ => false
  end.

(** The tuple [beartype_conf_args] of the parameters of [__new__]. *)
Record Args : Type := mkArgs {
  claw_is_pep526 : Param;
  is_color : Param;
  is_debug : Param;
  is_pep484_tower : Param;
  strategy : Param;
}.

(** Equality of two such tuples, item by item. *)
Definition args_eq (a b : Args) : bool :=
  py_eq (claw_is_pep526 a) (claw_is_pep526 b) &&
  py_eq (is_color a) (is_color b) &&
  py_eq (is_debug a) (is_debug b) &&
  py_eq (is_pep484_tower a) (is_pep484_tower b) &&
  py_eq (strategy a) (strategy b).

(** The slots of a configuration. *)
Record BeartypeConf : Type := mkConf {
  _claw_is_pep526 : Param;
  _is_color : Param;
  _is_debug : Param;
  _is_pep484_tower : Param;
  _strategy : Param;
}.

(** An insertion-ordered dictionary keyed by parameter tuples. *)
Abbreviation Dict := (list (Args * loc)).

(** [key in d] and [d[key]]. *)
Definition dict_get (key : Args) (d : Dict) : option loc :=
  snd <$> find (λ kv, args_eq kv.1 key) d.

(** [d[key] = v]. *)
Fixpoint dict_set (key : Args) (v : loc) (d : Dict) : Dict :=
  match d with
  | [] => [(key, v)]
  | (k, x) :: rest => if args_eq k key then (k, v) :: rest
                      else (k, x) :: dict_set key v rest
  end.

(** The configurations and the two caches. The [id] of a configuration is
    its reference. *)
Record World : Type := mkWorld {
  confs : gmap loc BeartypeConf;
  beartype_conf_args_to_conf : Dict;
  beartype_conf_id_to_conf : gmap loc loc;
}.

Inductive Result : Type :=
  | Returned (self : loc)
  | BeartypeConfException (msg : string).

Section Methods.
(** [repr] of a parameter. *)
Variable repr : Param → string.

Definition parameter (name : string) : string :=
  "Beartype configuration parameter " +:+ dquote +:+ name +:+ dquote.

Definition __new__ (args : Args) (w : World) : World * Result :=
  match dict_get args (beartype_conf_args_to_conf w) with
  | Some conf => (w, Returned conf)
  | None =>
      if negb (isinstance_bool (claw_is_pep526 args)) then
        (w, BeartypeConfException
              (parameter "claw_is_pep526" +:+ " value " +:+
               repr (claw_is_pep526 args) +:+ " not boolean."))
      else if negb (isinstance_NoneTypeOr_bool (is_color args)) then
        (w, BeartypeConfException
              (parameter "is_color" +:+ " value " +:+
               repr (is_color args) +:+ " not tri-state boolean " +:+
               "(i.e., " +:+ dquote +:+ "True" +:+ dquote +:+ ", " +:+
               dquote +:+ "False" +:+ dquote +:+ ", or " +:+
               dquote +:+ "None" +:+ dquote +:+ ")."))
      else if negb (isinstance_bool (is_debug args)) then
        (w, BeartypeConfException
              (parameter "is_debug" +:+ " value " +:+
               repr (is_debug args) +:+ " not boolean."))
      else if negb (isinstance_bool (is_pep484_tower args)) then
        (w, BeartypeConfException
              (parameter "is_pep484_tower" +:+ " value " +:+
               repr (is_debug args) +:+ " not boolean."))
      else if negb (isinstance_BeartypeStrategy (strategy args)) then
        (w, BeartypeConfException
              (parameter "strategy" +:+ " value " +:+
               repr (strategy args) +:+ " not " +:+
               dquote +:+ "beartype.BeartypeStrategy" +:+ dquote +:+
               " enumeration member."))
      else
        let self := fresh (dom (confs w)) in
        (mkWorld
           (<[self := mkConf (claw_is_pep526 args) (is_color args)
                        (is_debug args) (is_pep484_tower args)
                        (strategy args)]> (confs w))
           (dict_set args self (beartype_conf_args_to_conf w))
           (<[self := self]> (beartype_conf_id_to_conf w)),
         Returned self)
  end.

End Methods.

(** The default values of the parameters of [__new__]. *)
Definition default_args : Args :=
  mkArgs (PBool true) PNone (PBool false) (PBool false) (PStrategy "O1").

(** The object compared with a configuration by [__eq__]. *)
Inductive Object : Type :=
  | OConf (conf : loc)
  | OParam (p : Param).

Inductive Compared : Type :=
  | CBool (b : bool)
  | NotImplemented.

(** The tuple of the slots of a configuration. *)
Definition settings (c : BeartypeConf) : Args :=
  mkArgs (_claw_is_pep526 c) (_is_color c) (_is_debug c)
    (_is_pep484_tower c) (_strategy c).

Definition __eq__ (w : World) (self : loc) (other : Object)
    : option Compared :=
  match other with
  | OConf conf =>
      c ← confs w !! self;
      c' ← confs w !! conf;
      Some (CBool (py_eq (_claw_is_pep526 c) (_claw_is_pep526 c') &&
                   py_eq (_is_color c) (_is_color c') &&
                   py_eq (_is_debug c) (_is_debug c') &&
                   py_eq (_is_pep484_tower c) (_is_pep484_tower c') &&
                   py_eq (_strategy c) (_strategy c')))
  | OParam _ => Some NotImplemented
  end.

(** ** The invariant of the caches *)

(** The parameters that pass the tests of [__new__]. *)
Definition valid (a : Args) : Prop :=
  isinstance_bool (claw_is_pep526 a) = true ∧
  isinstance_NoneTypeOr_bool (is_color a) = true ∧
  isinstance_bool (is_debug a) = true ∧
  isinstance_bool (is_pep484_tower a) = true ∧
  isinstance_BeartypeStrategy (strategy a) = true.

(** Every cached key is valid and maps to a configuration that holds that
    key in its slots and is registered under its [id]; no two keys are
    equal. *)
Definition cache_ok (w : World) : Prop :=
  (∀ key conf,
     (key, conf) ∈ beartype_conf_args_to_conf w →
     valid key ∧
     beartype_conf_id_to_conf w !! conf = Some conf ∧
     ∃ c, confs w !! conf = Some c ∧ settings c = key) ∧
  (∀ i j key1 conf1 key2 conf2,
     beartype_conf_args_to_conf w !! i = Some (key1, conf1) →
     beartype_conf_args_to_conf w !! j = Some (key2, conf2) →
     args_eq key1 key2 = true → i = j).

(** The world before any configuration is instantiated. *)
Definition empty_world : World := mkWorld ∅ [] ∅.

(** A [repr] for the runs: that of [None], of the booleans and of the
    integers is fixed by the language; that of a member and of any other
    object is decided by their classes, which are defined elsewhere, and
    their name stands for it here. *)
Definition repr_param (p : Param) : string :=
  match p with
  | PNone => "None"
  | PBool true => "True"
  | PBool false => "False"
  | PInt z => pretty z
  | PStrategy member => "BeartypeStrategy." +:+ member
  | PObject id => id
  end.

(** The module-level call [BeartypeConf()] that defines
    [BEARTYPE_CONF_DEFAULT], in the world before any other call. *)
Definition imported : World * Result :=
  __new__ repr_param default_args empty_world.

End Conf.

(** * Interpreter versions: [beartype/_util/utilpy.py] *)
Module Utilpy.

(** [a >= b] on tuples of integers: the first items that differ decide, and
    a tuple is greater than each of its proper prefixes. Of
    [sys.version_info] only the leading integers matter, since a comparison
    with a pair is decided before its fourth item, a string, is reached. *)
Fixpoint tuple_ge (a b : list Z) : bool :=
  match a, b with
  | _, [] => true
  | [], _ :: _ => false
  | x :: a', y :: b' => if (x =? y)%Z then tuple_ge a' b' else (y <? x)%Z
  end.

Definition IS_PYTHON_AT_LEAST_4_0 (version_info : list Z) : bool :=
  tuple_ge version_info [4; 0]%Z.

Definition IS_PYTHON_AT_LEAST_3_7 (version_info : list Z) : bool :=
  IS_PYTHON_AT_LEAST_4_0 version_info || tuple_ge version_info [3; 7]%Z.

End Utilpy.

(** * Running computations *)

Section Run.
Context {A B : Type}.
Implicit Types (σ : State) (k : A → M B).

Lemma run_ret (a : A) k σ : bind (ret a) k σ = k a σ.
Proof. reflexivity. Qed.

Lemma run_raise (e : Exn) k σ : bind (raise e) k σ = (σ, Raise e).
Proof. reflexivity. Qed.

Lemma run_lift (r : Outcome A) k σ :
  bind (lift r) k σ = match r with Return a => k a σ | Raise e => (σ, Raise e) end.
Proof. reflexivity. Qed.

Lemma bind_assoc {C} (m : M C) (f : C → M A) k σ :
  bind (bind m f) k σ = bind m (λ x, bind (f x) k) σ.
Proof. unfold bind. destruct (m σ) as [σ' [c|e]]; reflexivity. Qed.

Lemma bind_if {C} (c : bool) (m1 m2 : M C) (f : C → M B) σ :
  bind (if c then m1 else m2) f σ = if c then bind m1 f σ else bind m2 f σ.
Proof. destruct c; reflexivity. Qed.

End Run.

Section RunUnit.
Context {B : Type}.
Implicit Types (σ : State) (k : unit → M B).

Lemma run_log e k σ :
  bind (log e) k σ = k tt (mkState (heap σ) (trace σ ++ [e])).
Proof. reflexivity. Qed.

Lemma run_assert (c : bool) msg k σ :
  bind (assert c msg) k σ = if c then k tt σ else (σ, Raise (AssertionError msg)).
Proof. destruct c; reflexivity. Qed.

(** Assignment to a slot of the object under construction. *)
Lemma run_set_slot self o h t name v k :
  bool_decide (name ∈ __slots__) = true →
  bind (set_slot self name v) k (mkState (<[self := o]> h) t)
  = k tt (mkState (<[self := <[name := v]> o]> h) t).
Proof.
  intros Hn. unfold bind, set_slot. cbn [heap trace].
  rewrite lookup_insert_eq, Hn, insert_insert_eq. reflexivity.
Qed.

End RunUnit.

Lemma set_slot_new self o h t name v :
  bool_decide (name ∈ __slots__) = true →
  set_slot self name v (mkState (<[self := o]> h) t)
  = (mkState (<[self := <[name := v]> o]> h) t, Return tt).
Proof.
  intros Hn. unfold set_slot. cbn [heap trace].
  rewrite lookup_insert_eq, Hn, insert_insert_eq. reflexivity.
Qed.

Lemma get_slot_Some σ self o name v :
  heap σ !! self = Some o → o !! name = Some v →
  get_slot self name σ = (σ, Return v).
Proof. intros Ho Hv. unfold get_slot. rewrite Ho. cbn. rewrite Hv. reflexivity. Qed.

Lemma get_slot_None σ self o name :
  heap σ !! self = Some o → o !! name = None →
  get_slot self name σ = (σ, Raise (AttributeError name)).
Proof. intros Ho Hv. unfold get_slot. rewrite Ho. cbn. rewrite Hv. reflexivity. Qed.

Lemma getattr_hint self : getattr self "hint" = get_slot self "_hint".
Proof. reflexivity. Qed.

Lemma getattr_slot self name :
  name ≠ "hint" → getattr self name = get_slot self name.
Proof. intros Hn. unfold getattr. rewrite bool_decide_eq_false_2; done. Qed.

Lemma run_get_slot {B} σ self o name v (k : Value → M B) :
  heap σ !! self = Some o → o !! name = Some v →
  bind (get_slot self name) k σ = k v σ.
Proof. intros Ho Hv. unfold bind. rewrite (get_slot_Some _ _ _ _ _ Ho Hv). reflexivity. Qed.

Lemma run_alloc {B} (k : loc → M B) σ :
  bind alloc k σ
  = k (fresh (dom (heap σ)))
      (mkState (<[fresh (dom (heap σ)) := ∅]> (heap σ)) (trace σ)).
Proof. reflexivity. Qed.

(** A reference returned by [alloc] is not in use. *)
Lemma fresh_unused (h : gmap loc (gmap string Value)) :
  h !! fresh (dom h) = None.
Proof. apply not_elem_of_dom, is_fresh. Qed.

(** ** Strings *)

Lemma prefix_app (sub rest : string) : String.prefix sub (sub +:+ rest) = true.
Proof.
  induction sub as [|c sub IH]; simpl.
  - destruct rest; reflexivity.
  - destruct (ascii_dec c c); [exact IH | congruence].
Qed.

Lemma str_in_app (sub before after : string) :
  str_in sub (before +:+ sub +:+ after) = true.
Proof.
  induction before as [|c before IH].
  - change (str_in sub (sub +:+ after) = true).
    pose proof (prefix_app sub after) as Hp.
    destruct (sub +:+ after); cbn [str_in]; rewrite Hp; reflexivity.
  - change (str_in sub (String c (before +:+ sub +:+ after)) = true).
    cbn [str_in]. rewrite IH. apply orb_true_r.
Qed.

(** * Dispatch of [get_cause_or_none] *)

Section Dispatch.
Context `{Collaborators}.
Implicit Types (σ : State) (self : loc) (o : gmap string Value).

Lemma after_nil σ : after σ [] = σ.
Proof. destruct σ. unfold after. cbn. by rewrite app_nil_r. Qed.

Lemma after_after σ evs1 evs2 : after (after σ evs1) evs2 = after σ (evs1 ++ evs2).
Proof. unfold after. cbn. by rewrite app_assoc. Qed.

Lemma run_log_after {B} e (k : unit → M B) σ : bind (log e) k σ = k tt (after σ [e]).
Proof. reflexivity. Qed.

Lemma shallowb_spec sign hint : shallowb sign hint = true ↔ shallow sign hint.
Proof.
  unfold shallowb, shallow.
  rewrite andb_true_iff, orb_true_iff, !negb_true_iff, bool_decide_eq_true,
    bool_decide_eq_false.
  reflexivity.
Qed.

Lemma shallowb_false sign hint : shallowb sign hint = false ↔ ¬ shallow sign hint.
Proof. rewrite <- shallowb_spec. destruct (shallowb sign hint); naive_solver. Qed.

Lemma shallow_events_no_lookup sign hint hint_sign :
  EvTableGet hint_sign ∉ shallow_events sign hint.
Proof.
  unfold shallow_events.
  destruct (bool_decide (sign ∈ HINT_SIGNS_ORIGIN_ISINSTANCEABLE));
    intros Hin; inversion Hin as [|? ? ? Hin']; inversion Hin'.
Qed.

Lemma checked_shallowly_tagged σ self o hint sign :
  heap σ !! self = Some o →
  o !! "_hint" = Some hint →
  o !! "hint_sign" = Some (VSign sign) →
  checked_shallowly self σ
  = (after σ (shallow_events sign hint), Return (shallowb sign hint)).
Proof.
  intros Ho Hhint Hsign. unfold checked_shallowly, shallowb, shallow_events.
  erewrite run_get_slot by eassumption. cbn [sign_in].
  destruct (bool_decide (sign ∈ HINT_SIGNS_ORIGIN_ISINSTANCEABLE)); cbn [andb].
  - rewrite getattr_hint. erewrite run_get_slot by eassumption.
    rewrite run_log_after.
    destruct (is_hint_pep_args hint); cbn [negb orb]; [|reflexivity].
    erewrite run_get_slot by (cbn; eassumption). reflexivity.
  - rewrite after_nil. reflexivity.
Qed.

Lemma select_getter_untagged σ self o hint :
  heap σ !! self = Some o →
  o !! "_hint" = Some hint →
  o !! "hint_sign" = Some VNone →
  select_getter self σ
  = (σ, Return (if isinstance_tuple hint
                then (ViaInstanceTypesTuple,
                      get_cause_or_none_instance_types_tuple)
                else (ViaInstanceType, get_cause_or_none_instance_type))).
Proof.
  intros Ho Hhint Hsign. unfold select_getter.
  erewrite run_get_slot by eassumption. cbn [is_None].
  rewrite getattr_hint. erewrite run_get_slot by eassumption.
  destruct (isinstance_tuple hint); reflexivity.
Qed.

Lemma select_getter_tagged σ self o hint sign exception_prefix :
  heap σ !! self = Some o →
  o !! "_hint" = Some hint →
  o !! "hint_sign" = Some (VSign sign) →
  o !! "exception_prefix" = Some exception_prefix →
  select_getter self σ
  = if shallowb sign hint then
      (after σ (shallow_events sign hint),
       Return (ViaTypeInstanceOrigin, get_cause_or_none_type_instance_origin))
    else
      (after σ (shallow_events sign hint ++ [EvTableGet (VSign sign)]),
       match PEP_HINT_SIGN_TO_GET_CAUSE_FUNC !! sign with
       | Some getter => Return (ViaSignTable (VSign sign), getter)
       | None => Raise (_BeartypeCallHintPepRaiseException
                          (unsupported_msg exception_prefix hint))
       end).
Proof.
  intros Ho Hhint Hsign Hprefix. unfold select_getter.
  erewrite run_get_slot by eassumption. cbn [is_None].
  unfold bind at 1.
  erewrite checked_shallowly_tagged by eassumption.
  destruct (shallowb sign hint); [reflexivity|].
  erewrite run_get_slot by (cbn; eassumption).
  rewrite run_log_after, after_after. cbn [table_get].
  destruct (PEP_HINT_SIGN_TO_GET_CAUSE_FUNC !! sign); [reflexivity|].
  erewrite run_get_slot by (cbn; eassumption).
  rewrite getattr_hint. erewrite run_get_slot by (cbn; eassumption).
  reflexivity.
Qed.

(** What [get_cause_or_none] does once the hint is known not to be
    ignorable, in terms of the getter selected. *)
Lemma get_cause_or_none_unignorable σ self o hint :
  heap σ !! self = Some o →
  o !! "_hint" = Some hint →
  is_hint_ignorable hint = false →
  get_cause_or_none self σ
  = match select_getter self (after σ [EvIsIgnorable hint]) with
    | (σ', Return selected) =>
        selected.2 self (after σ' [EvGetter selected.1 self])
    | (σ', Raise e) => (σ', Raise e)
    end.
Proof.
  intros Ho Hhint Hign. unfold get_cause_or_none.
  rewrite getattr_hint. erewrite run_get_slot by eassumption.
  rewrite run_log_after, Hign. unfold bind at 1.
  destruct (select_getter self (after σ [EvIsIgnorable hint])) as [σ' [sel|e]];
    reflexivity.
Qed.

(** ** The claims on dispatch *)

(** C2. A sleuth whose hint is ignorable has no cause: [get_cause_or_none]
    returns [None] after the ignorability test alone, whatever the pith and
    the other slots are. The heap is untouched and the only call made is
    that test: no sanitizing, no dispatch-table lookup, no getter. *)
Theorem ignorable_hint_has_no_cause σ self o hint :
  heap σ !! self = Some o →
  o !! "_hint" = Some hint →
  is_hint_ignorable hint = true →
  get_cause_or_none self σ = (after σ [EvIsIgnorable hint], Return None).
Proof.
  intros Ho Hhint Hign. unfold get_cause_or_none.
  rewrite getattr_hint. erewrite run_get_slot by eassumption.
  rewrite run_log_after, Hign. reflexivity.
Qed.

(** C3. A sleuth whose hint is unignorable and untagged ([hint_sign] is
    [None]) defers to the getter of tuple unions when the hint is a tuple
    and to the getter of classes otherwise; the run of [get_cause_or_none]
    is the run of that getter on the sleuth itself, and before it only the
    ignorability test was called. *)
Theorem untagged_hint_dispatch σ self o hint :
  heap σ !! self = Some o →
  o !! "_hint" = Some hint →
  o !! "hint_sign" = Some VNone →
  is_hint_ignorable hint = false →
  get_cause_or_none self σ
  = if isinstance_tuple hint then
      get_cause_or_none_instance_types_tuple self
        (after σ [EvIsIgnorable hint; EvGetter ViaInstanceTypesTuple self])
    else
      get_cause_or_none_instance_type self
        (after σ [EvIsIgnorable hint; EvGetter ViaInstanceType self]).
Proof.
  intros Ho Hhint Hsign Hign.
  erewrite get_cause_or_none_unignorable by eassumption.
  erewrite select_getter_untagged by (cbn; eassumption).
  rewrite after_after.
  destruct (isinstance_tuple hint); reflexivity.
Qed.

(** C4. For a sleuth whose hint is unignorable and tagged with [sign], the
    getter is chosen by the origin-type branch exactly when [sign] is in
    [HINT_SIGNS_ORIGIN_ISINSTANCEABLE] and the hint is unsubscripted or
    [sign] is not in [HINT_SIGNS_SUPPORTED_DEEP]. In that case the run is
    the run of [get_cause_or_none_type_instance_origin] on the sleuth and
    the dispatch table was not looked up; in every other case the table is
    looked up at [sign] and the run is that of the getter found there, or
    the exception for unsupported hints when there is none. *)
Theorem tagged_hint_dispatch σ self o hint sign exception_prefix :
  heap σ !! self = Some o →
  o !! "_hint" = Some hint →
  o !! "hint_sign" = Some (VSign sign) →
  o !! "exception_prefix" = Some exception_prefix →
  is_hint_ignorable hint = false →
  ((∃ σ' getter, select_getter self (after σ [EvIsIgnorable hint])
                 = (σ', Return (ViaTypeInstanceOrigin, getter)))
   ↔ shallow sign hint) ∧
  (shallow sign hint →
     let events := EvIsIgnorable hint :: shallow_events sign hint
                   ++ [EvGetter ViaTypeInstanceOrigin self] in
     get_cause_or_none self σ
     = get_cause_or_none_type_instance_origin self (after σ events) ∧
     ∀ hint_sign, EvTableGet hint_sign ∉ events) ∧
  (¬ shallow sign hint →
     let events := EvIsIgnorable hint :: shallow_events sign hint
                   ++ [EvTableGet (VSign sign)] in
     get_cause_or_none self σ
     = match PEP_HINT_SIGN_TO_GET_CAUSE_FUNC !! sign with
       | Some getter =>
           getter self
             (after σ (events ++ [EvGetter (ViaSignTable (VSign sign)) self]))
       | None =>
           (after σ events,
            Raise (_BeartypeCallHintPepRaiseException
                     (unsupported_msg exception_prefix hint)))
       end).
Proof.
  intros Ho Hhint Hsign Hprefix Hign.
  pose proof (select_getter_tagged (after σ [EvIsIgnorable hint]) self o hint
                sign exception_prefix Ho Hhint Hsign Hprefix) as Hsel.
  pose proof (get_cause_or_none_unignorable σ self o hint Ho Hhint Hign) as Hrun.
  rewrite Hsel in Hrun. rewrite !after_after in Hsel, Hrun.
  split; [|split].
  - rewrite <- shallowb_spec. rewrite Hsel.
    destruct (shallowb sign hint).
    + split; [done|]. intros _. eauto.
    + split; [|done]. intros (σ' & getter & Heq).
      destruct (PEP_HINT_SIGN_TO_GET_CAUSE_FUNC !! sign); discriminate.
  - intros Hsh%shallowb_spec events. rewrite Hsh in Hrun.
    rewrite after_after in Hrun. split.
    + rewrite Hrun. subst events. cbn [fst snd app]. rewrite <- ?app_assoc.
      reflexivity.
    + intros hint_sign Hin. subst events.
      apply elem_of_cons in Hin as [Hin|Hin]; [discriminate|].
      apply elem_of_app in Hin as [Hin|Hin].
      * by apply shallow_events_no_lookup in Hin.
      * apply list_elem_of_singleton in Hin. discriminate.
  - intros Hsh%shallowb_false events. rewrite Hsh in Hrun. subst events.
    rewrite Hrun.
    destruct (PEP_HINT_SIGN_TO_GET_CAUSE_FUNC !! sign); [|reflexivity].
    rewrite after_after. cbn [fst snd app]. rewrite <- ?app_assoc. reflexivity.
Qed.

(** C1 (as the code has it). A sleuth whose hint is unignorable, tagged with
    a sign that is not dispatched to the origin-type getter and for which the
    dispatch table holds no getter makes [get_cause_or_none] raise
    [_BeartypeCallHintPepRaiseException]. The message is built from the
    exception prefix and the [repr] of the hint, both of which it contains;
    the sign is not used to build it. *)
Theorem unsupported_hint_raises σ self o hint sign exception_prefix :
  heap σ !! self = Some o →
  o !! "_hint" = Some hint →
  o !! "hint_sign" = Some (VSign sign) →
  o !! "exception_prefix" = Some exception_prefix →
  is_hint_ignorable hint = false →
  ¬ shallow sign hint →
  PEP_HINT_SIGN_TO_GET_CAUSE_FUNC !! sign = None →
  get_cause_or_none self σ
  = (after σ (EvIsIgnorable hint :: shallow_events sign hint
              ++ [EvTableGet (VSign sign)]),
     Raise (_BeartypeCallHintPepRaiseException
              (unsupported_msg exception_prefix hint))) ∧
  str_in (repr hint) (unsupported_msg exception_prefix hint) = true ∧
  str_in (str exception_prefix) (unsupported_msg exception_prefix hint) = true.
Proof.
  intros Ho Hhint Hsign Hprefix Hign Hsh%shallowb_false Hnone.
  split; [|split].
  - erewrite get_cause_or_none_unignorable by eassumption.
    erewrite select_getter_tagged by (cbn; eassumption).
    rewrite Hsh, Hnone, after_after. reflexivity.
  - unfold unsupported_msg.
    change (str exception_prefix +:+ " type hint " +:+ repr hint +:+ ?rest)
      with (str exception_prefix +:+ (" type hint " +:+ repr hint +:+ rest)).
    generalize (str exception_prefix). intros prefix.
    induction prefix as [|c prefix IH].
    + apply (str_in_app (repr hint) " type hint ").
    + change (str_in (repr hint) (String c (prefix +:+ " type hint " +:+ repr hint
              +:+ " unsupported (i.e., no " +:+ dquote +:+ "get_cause_or_none_"
              +:+ dquote +:+ "-prefixed getter function defined "
              +:+ "for this category of hint).")) = true).
      cbn [str_in]. rewrite IH. apply orb_true_r.
  - unfold unsupported_msg.
    apply (str_in_app (str exception_prefix) EmptyString).
Qed.

End Dispatch.

(** * Construction *)

Section Construction.
Context `{Collaborators}.
Implicit Types (σ : State) (self : loc) (o : gmap string Value).

Ltac run_step :=
  first
    [ rewrite bind_assoc
    | rewrite run_ret
    | rewrite run_raise
    | rewrite run_log
    | rewrite run_alloc
    | rewrite run_lift
    | rewrite run_assert
    | rewrite run_set_slot by reflexivity
    | rewrite set_slot_new by reflexivity ];
  cbv beta; cbn [heap trace].

Ltac decide_ifs :=
  repeat match goal with
         | Hc : ?c = _ |- context [if ?c then _ else _] => rewrite Hc
         end.

Ltac raises :=
  right; repeat run_step; decide_ifs; do 3 eexists; reflexivity.

(** The body of the setter of [hint] on the object under construction. *)
Lemma hint_setter_new {B} self o h t raw exception_prefix (k : unit → M B) :
  o !! "exception_prefix" = Some exception_prefix →
  bind (hint_setter self raw) k (mkState (<[self := o]> h) t)
  = match sanify_hint_child raw exception_prefix with
    | Raise e => (mkState (<[self := o]> h) (t ++ [EvSanify raw exception_prefix]),
                  Raise e)
    | Return hint =>
        if is_hint_pep hint then
          match get_hint_pep_sign hint with
          | Raise e =>
              (mkState (<[self := o]> h)
                 (t ++ [EvSanify raw exception_prefix; EvIsHintPep hint;
                        EvGetSign hint]), Raise e)
          | Return sign =>
              k tt (mkState
                      (<[self := <["_hint" := hint]>
                                   (<["hint_childs" :=
                                        VTuple (get_hint_pep_args hint)]>
                                   (<["hint_sign" := VSign sign]> o))]> h)
                      (t ++ hint_events raw exception_prefix hint))
          end
        else
          k tt (mkState (<[self := <["_hint" := hint]> o]> h)
                  (t ++ hint_events raw exception_prefix hint))
    end.
Proof.
  intros Hprefix. unfold hint_setter, hint_events.
  rewrite bind_assoc.
  erewrite run_get_slot
    by (cbn [heap]; first [apply lookup_insert_eq | exact Hprefix]).
  do 3 run_step.
  destruct (sanify_hint_child raw exception_prefix) as [hint|e]; [|reflexivity].
  do 3 run_step.
  destruct (is_hint_pep hint).
  - repeat run_step.
    destruct (get_hint_pep_sign hint) as [sign|e].
    + repeat run_step. rewrite <- !app_assoc. reflexivity.
    + rewrite <- !app_assoc. reflexivity.
  - repeat run_step. rewrite <- !app_assoc. reflexivity.
Qed.

(** A successful construction, step by step. *)
Lemma CauseSleuth_run kwargs σ func pith raw cause_indent exception_prefix
    random_int hint :
  binds kwargs func pith raw cause_indent exception_prefix random_int →
  sanify_hint_child raw exception_prefix = Return hint →
  classifiable hint →
  CauseSleuth kwargs σ
  = (mkState
       (<[fresh (dom (heap σ)) :=
            built_object func pith cause_indent exception_prefix random_int
              hint]> (heap σ))
       (trace σ ++ hint_events raw exception_prefix hint),
     Return (fresh (dom (heap σ)))).
Proof.
  intros (Hextra & Hfunc & Hpith & Hraw & Hindent & Hprefix & Hrandom &
          Hcallable & Hstr1 & Hstr2 & Hint) Hsanify Hclass.
  unfold CauseSleuth, bind_arg, __init__.
  rewrite run_alloc, Hextra, Hfunc, Hpith, Hraw, Hindent, Hprefix, Hrandom.
  do 8 run_step.
  rewrite Hcallable, Hstr1, Hstr2, Hint. cbn [assert].
  repeat run_step.
  erewrite hint_setter_new by reflexivity.
  rewrite Hsanify. unfold built_object, unclassified_object.
  destruct (is_hint_pep hint) eqn:Hpep.
  - destruct (Hclass Hpep) as [sign ->]. reflexivity.
  - reflexivity.
Qed.

(** Every construction either succeeds, on arguments that bind, sanitize
    and classify, or raises; in both cases the only change to the heap is
    the object allocated for it. *)
Lemma CauseSleuth_outcome kwargs σ :
  (∃ func pith raw cause_indent exception_prefix random_int hint,
     binds kwargs func pith raw cause_indent exception_prefix random_int ∧
     sanify_hint_child raw exception_prefix = Return hint ∧
     classifiable hint) ∨
  (∃ o t e, CauseSleuth kwargs σ
            = (mkState (<[fresh (dom (heap σ)) := o]> (heap σ)) t, Raise e)).
Proof.
  unfold binds, CauseSleuth, bind_arg, __init__.
  destruct (filter _ kwargs) as [|[k v] rest];
    [|raises].
  destruct (kwargs_get "func" kwargs) as [func|];
    [|raises].
  destruct (kwargs_get "pith" kwargs) as [pith|];
    [|raises].
  destruct (kwargs_get "hint" kwargs) as [raw|];
    [|raises].
  destruct (kwargs_get "cause_indent" kwargs) as [cause_indent|];
    [|raises].
  destruct (kwargs_get "exception_prefix" kwargs) as [exception_prefix|];
    [|raises].
  destruct (kwargs_get "random_int" kwargs) as [random_int|];
    [|raises].
  destruct (callable func) eqn:Hcallable;
    [|raises].
  destruct (isinstance_str cause_indent) eqn:Hstr1;
    [|raises].
  destruct (isinstance_str exception_prefix) eqn:Hstr2;
    [|raises].
  destruct (isinstance_NoneTypeOr_int random_int) eqn:Hint;
    [|raises].
  destruct (sanify_hint_child raw exception_prefix) as [hint|e] eqn:Hsanify.
  - destruct (is_hint_pep hint) eqn:Hpep.
    + destruct (get_hint_pep_sign hint) as [sign|e] eqn:Hsign.
      * left. exists func, pith, raw, cause_indent, exception_prefix,
          random_int, hint.
        unfold classifiable. repeat split; eauto.
      * right. repeat run_step. decide_ifs.
        erewrite hint_setter_new by reflexivity.
        rewrite Hsanify, Hpep, Hsign. do 3 eexists. reflexivity.
    + left. exists func, pith, raw, cause_indent, exception_prefix,
        random_int, hint.
      unfold classifiable. repeat split; try done. congruence.
  - right. repeat run_step. decide_ifs.
    erewrite hint_setter_new by reflexivity.
    rewrite Hsanify. do 3 eexists. reflexivity.
Qed.

(** A construction that returns returned the object of [CauseSleuth_run]. *)
Lemma CauseSleuth_inv kwargs σ σ' self :
  CauseSleuth kwargs σ = (σ', Return self) →
  ∃ func pith raw cause_indent exception_prefix random_int hint,
    binds kwargs func pith raw cause_indent exception_prefix random_int ∧
    sanify_hint_child raw exception_prefix = Return hint ∧
    classifiable hint ∧
    self = fresh (dom (heap σ)) ∧
    σ' = mkState
           (<[self := built_object func pith cause_indent exception_prefix
                        random_int hint]> (heap σ))
           (trace σ ++ hint_events raw exception_prefix hint).
Proof.
  intros Hrun.
  destruct (CauseSleuth_outcome kwargs σ)
    as [(func & pith & raw & ci & ep & ri & hint & Hbinds & Hsanify & Hclass)
       |(o & t & e & Hraise)]; [|congruence].
  rewrite (CauseSleuth_run _ _ _ _ _ _ _ _ _ Hbinds Hsanify Hclass) in Hrun.
  injection Hrun as <- <-. eauto 15.
Qed.

(** The heap after a construction is the heap before it and one new
    object. *)
Lemma CauseSleuth_heap kwargs σ :
  ∃ o, heap (CauseSleuth kwargs σ).1 = <[fresh (dom (heap σ)) := o]> (heap σ).
Proof.
  destruct (CauseSleuth_outcome kwargs σ)
    as [(func & pith & raw & ci & ep & ri & hint & Hbinds & Hsanify & Hclass)
       |(o & t & e & Hraise)].
  - rewrite (CauseSleuth_run _ _ _ _ _ _ _ _ _ Hbinds Hsanify Hclass). eauto.
  - rewrite Hraise. eauto.
Qed.

(** ** The slots of a constructed sleuth *)

Lemma built_object_slots func pith cause_indent exception_prefix random_int
    hint :
  let o := built_object func pith cause_indent exception_prefix random_int
             hint in
  o !! "func" = Some func ∧ o !! "pith" = Some pith ∧
  o !! "cause_indent" = Some cause_indent ∧
  o !! "exception_prefix" = Some exception_prefix ∧
  o !! "random_int" = Some random_int ∧ o !! "_hint" = Some hint.
Proof.
  unfold built_object, unclassified_object.
  destruct (is_hint_pep hint); [destruct (get_hint_pep_sign hint)|];
    repeat split; reflexivity.
Qed.

Lemma built_object_classified func pith cause_indent exception_prefix
    random_int hint :
  classifiable hint →
  classified
    (built_object func pith cause_indent exception_prefix random_int hint)
    hint.
Proof.
  intros Hclass. unfold classified, classifiable, built_object,
    unclassified_object in *.
  destruct (is_hint_pep hint).
  - destruct (Hclass eq_refl) as [sign ->]. split; [reflexivity|].
    exists sign. repeat split; reflexivity.
  - repeat split; reflexivity.
Qed.

Lemma built_object_wf func pith raw cause_indent exception_prefix
    random_int hint :
  callable func = true →
  isinstance_str cause_indent = true →
  isinstance_str exception_prefix = true →
  isinstance_NoneTypeOr_int random_int = true →
  sanify_hint_child raw exception_prefix = Return hint →
  classifiable hint →
  sleuth_wf
    (built_object func pith cause_indent exception_prefix random_int hint).
Proof.
  intros Hcallable Hstr1 Hstr2 Hint Hsanify Hclass.
  destruct (built_object_slots func pith cause_indent exception_prefix
              random_int hint) as (? & ? & ? & ? & ? & ?).
  exists func, pith, cause_indent, exception_prefix, random_int, raw, hint.
  pose proof (built_object_classified func pith cause_indent
                exception_prefix random_int hint Hclass).
  do 10 (split; [assumption|]). assumption.
Qed.

End Construction.

(** * Derivation: [permute] *)

Section Kwargs.
Implicit Types (kwargs : Kwargs) (name : string) (v : Value).

Lemma kwargs_get_set_eq name v kwargs :
  kwargs_get name (kwargs_set name v kwargs) = Some v.
Proof.
  induction kwargs as [|[k w] rest IH]; cbn.
  - by rewrite bool_decide_eq_true_2.
  - case_bool_decide as Hk; cbn; rewrite Hk || rewrite bool_decide_eq_false_2;
      try done. by rewrite bool_decide_eq_true_2.
Qed.

Lemma kwargs_get_set_ne name name' v kwargs :
  name ≠ name' →
  kwargs_get name' (kwargs_set name v kwargs) = kwargs_get name' kwargs.
Proof.
  intros Hne. induction kwargs as [|[k w] rest IH]; cbn.
  - by rewrite bool_decide_eq_false_2.
  - case_bool_decide as Hk; cbn.
    + subst k. by rewrite !bool_decide_eq_false_2.
    + by rewrite IH.
Qed.

Lemma kwargs_get_set name name' v kwargs :
  kwargs_get name' (kwargs_set name v kwargs)
  = if bool_decide (name = name') then Some v else kwargs_get name' kwargs.
Proof.
  case_bool_decide as Hn.
  - subst. apply kwargs_get_set_eq.
  - by apply kwargs_get_set_ne.
Qed.

Lemma kwargs_set_keys (P : string → Prop) name v kwargs :
  P name → Forall P kwargs.*1 → Forall P (kwargs_set name v kwargs).*1.
Proof.
  intros Hname. induction kwargs as [|[k w] rest IH]; cbn; intros Hall.
  - by constructor.
  - inversion Hall; subst. case_bool_decide; cbn; constructor; auto.
Qed.

Lemma kwargs_get_None_keys name kwargs :
  kwargs_get name kwargs = None → name ∉ kwargs.*1.
Proof.
  induction kwargs as [|[k w] rest IH]; cbn.
  - intros _. apply not_elem_of_nil.
  - case_bool_decide as Hk; [done|]. intros Hget Hin.
    apply elem_of_cons in Hin as [->|Hin]; [done|]. by apply IH.
Qed.

Lemma kwargs_get_Some_keys name v kwargs :
  kwargs_get name kwargs = Some v → name ∈ kwargs.*1.
Proof.
  induction kwargs as [|[k w] rest IH]; cbn; [done|].
  case_bool_decide as Hk.
  - subst. intros _. apply elem_of_cons. by left.
  - intros Hget. apply elem_of_cons. right. by apply IH.
Qed.

(** No keyword is unexpected when every keyword is a parameter. *)
Lemma no_extra_keyword (params : list string) kwargs :
  Forall (λ k, k ∈ params) kwargs.*1 →
  filter (λ kv : string * Value, kv.1 ∉ params) kwargs = [].
Proof.
  induction kwargs as [|[k w] rest IH]; intros Hall; [done|].
  rewrite fmap_cons in Hall. inversion Hall; subst.
  rewrite filter_cons_False by (cbn; naive_solver). auto.
Qed.

End Kwargs.

(** Closed decidable facts, by computation. *)
Ltac by_compute := apply (bool_decide_unpack _); vm_compute; exact I.

Section Loops.
Implicit Types (σ : State) (self : loc) (kwargs : Kwargs).

Lemma first_unrecognized_Some arg_names arg_name :
  first_unrecognized arg_names = Some arg_name →
  arg_name ∈ arg_names ∧ arg_name ∉ _INIT_PARAM_NAMES.
Proof.
  unfold first_unrecognized. intros [Hin Hbad]%find_some.
  split; [by apply list_elem_of_In | by apply bool_decide_eq_true in Hbad].
Qed.

Lemma first_unrecognized_None arg_names :
  first_unrecognized arg_names = None ↔
  Forall (λ arg_name, arg_name ∈ _INIT_PARAM_NAMES) arg_names.
Proof.
  unfold first_unrecognized.
  induction arg_names as [|arg_name rest IH]; cbn [find].
  - split; [constructor | done].
  - case_bool_decide as Hbad.
    + split; [done|]. intros Hall. inversion Hall; subst. done.
    + rewrite IH. split.
      * intros Hall. constructor; [|done].
        by destruct (decide (arg_name ∈ _INIT_PARAM_NAMES)).
      * intros Hall. by inversion Hall.
Qed.

Lemma permute_check_run arg_names σ :
  permute_check arg_names σ
  = (σ, match first_unrecognized arg_names with
        | Some arg_name =>
            Raise (_BeartypeCallHintPepRaiseException
                     (unrecognized_msg arg_name))
        | None => Return tt
        end).
Proof.
  unfold first_unrecognized.
  induction arg_names as [|arg_name rest IH]; cbn [permute_check find];
    [reflexivity|].
  destruct (bool_decide (arg_name ∉ _INIT_PARAM_NAMES)); [reflexivity|exact IH].
Qed.

Lemma getattr_attr self name σ :
  getattr self name σ
  = (σ, match attr (heap σ) self name with
        | Some v => Return v
        | None => Raise (AttributeError
                           (if bool_decide (name = "hint") then "_hint"
                            else name))
        end).
Proof.
  unfold getattr, attr, get_slot.
  destruct (bool_decide (name = "hint"));
    match goal with |- context [?h !! self ≫= ?f] =>
      destruct (h !! self ≫= f) end; reflexivity.
Qed.

(** The second loop of [permute] leaves the state alone. It returns keyword
    arguments in which every missing parameter has the value of the
    attribute of [self] of the same name, or raises [AttributeError] because
    a missing parameter names an attribute that is not assigned. *)
Lemma permute_defaults_outcome self arg_names kwargs σ :
  (∃ kwargs',
     permute_defaults self arg_names kwargs σ = (σ, Return kwargs') ∧
     (∀ name, kwargs_get name kwargs'
              = match kwargs_get name kwargs with
                | Some v => Some v
                | None => if bool_decide (name ∈ arg_names)
                          then attr (heap σ) self name else None
                end) ∧
     (∀ P : string → Prop,
        Forall P arg_names → Forall P kwargs.*1 → Forall P kwargs'.*1)) ∨
  (∃ name, name ∈ arg_names ∧ kwargs_get name kwargs = None ∧
           attr (heap σ) self name = None ∧
           ∃ slot, permute_defaults self arg_names kwargs σ
                   = (σ, Raise (AttributeError slot))).
Proof.
  revert kwargs.
  induction arg_names as [|arg_name rest IH]; intros kwargs;
    cbn [permute_defaults].
  - left. exists kwargs. split; [reflexivity|]. split; [|auto].
    intros name. destruct (kwargs_get name kwargs); [done|].
    rewrite bool_decide_eq_false_2; [done | apply not_elem_of_nil].
  - destruct (kwargs_get arg_name kwargs) as [w|] eqn:Hget.
    + destruct (IH kwargs)
        as [(kwargs' & Hrun & Hvals & Hkeys)
           |(name & Hin & Hnone & Hattr & slot & Hrun)].
      * left. exists kwargs'. split; [done|]. split.
        -- intros name. rewrite Hvals.
           destruct (kwargs_get name kwargs) eqn:Hname; [done|].
           assert (name ≠ arg_name) by congruence.
           rewrite (bool_decide_ext (name ∈ arg_name :: rest) (name ∈ rest));
             [done|]. rewrite elem_of_cons. intuition congruence.
        -- intros P Hall. inversion Hall; subst. auto.
      * right. exists name. rewrite elem_of_cons. eauto 10.
    + unfold bind. rewrite getattr_attr.
      destruct (attr (heap σ) self arg_name) as [v|] eqn:Hattr.
      * destruct (IH (kwargs_set arg_name v kwargs))
          as [(kwargs' & Hrun & Hvals & Hkeys)
             |(name & Hin & Hnone & Hattr' & slot & Hrun)].
        -- left. exists kwargs'. split; [done|]. split.
           ++ intros name. rewrite Hvals, kwargs_get_set.
              case_bool_decide as Hname.
              ** subst name.
                 rewrite Hget, bool_decide_eq_true_2, Hattr; [done|].
                 apply elem_of_cons. by left.
              ** destruct (kwargs_get name kwargs); [done|].
                 rewrite (bool_decide_ext (name ∈ arg_name :: rest)
                            (name ∈ rest)); [done|].
                 rewrite elem_of_cons. intuition congruence.
           ++ intros P Hall Hkw. inversion Hall; subst.
              apply Hkeys; [done|]. by apply kwargs_set_keys.
        -- right. exists name. rewrite kwargs_get_set in Hnone.
           case_bool_decide; [done|]. rewrite elem_of_cons. eauto 10.
      * right. exists arg_name. rewrite elem_of_cons. eauto 10.
Qed.

End Loops.

Section Permute.
Context `{Collaborators}.
Implicit Types (σ : State) (self : loc) (kwargs : Kwargs).

(** [permute] is its first loop followed, when no keyword is rejected, by
    the second loop and the construction. *)
Lemma permute_run self kwargs σ :
  permute self kwargs σ
  = match first_unrecognized kwargs.*1 with
    | Some arg_name =>
        (σ, Raise (_BeartypeCallHintPepRaiseException
                     (unrecognized_msg arg_name)))
    | None =>
        bind (permute_defaults self _INIT_PARAM_NAMES kwargs) CauseSleuth σ
    end.
Proof.
  unfold permute, bind at 1. rewrite permute_check_run.
  destruct (first_unrecognized kwargs.*1); reflexivity.
Qed.

Lemma defaults_argument h self kwargs name :
  name ∈ _INIT_PARAM_NAMES →
  match kwargs_get name kwargs with
  | Some v => Some v
  | None => if bool_decide (name ∈ _INIT_PARAM_NAMES)
            then attr h self name else None
  end = argument h self kwargs name.
Proof. intros Hin. unfold argument. by rewrite bool_decide_eq_true_2. Qed.

Lemma init_params_names name :
  name ∈ _INIT_PARAM_NAMES → name ∈ init_params.
Proof.
  unfold _INIT_PARAM_NAMES. intros Hin.
  repeat (apply elem_of_cons in Hin as [->|Hin];
          [by_compute|]).
  by apply elem_of_nil in Hin.
Qed.

(** The keyword arguments after the second loop bind the parameters of
    [__init__] to the arguments of [permute]. *)
Lemma defaults_bind self kwargs kwargs' σ func pith raw cause_indent
    exception_prefix random_int :
  first_unrecognized kwargs.*1 = None →
  (∀ name, kwargs_get name kwargs'
           = match kwargs_get name kwargs with
             | Some v => Some v
             | None => if bool_decide (name ∈ _INIT_PARAM_NAMES)
                       then attr (heap σ) self name else None
             end) →
  (∀ P : string → Prop,
     Forall P _INIT_PARAM_NAMES → Forall P kwargs.*1 → Forall P kwargs'.*1) →
  binds kwargs' func pith raw cause_indent exception_prefix random_int ↔
  passes (heap σ) self kwargs func pith raw cause_indent exception_prefix
    random_int.
Proof.
  intros Hfirst%first_unrecognized_None Hvals Hkeys.
  assert (filter (λ kv : string * Value, kv.1 ∉ init_params) kwargs' = [])
    as Hextra.
  { apply no_extra_keyword, Hkeys.
    - apply Forall_forall. intros name. apply init_params_names.
    - eapply Forall_impl; [exact Hfirst|]. intros name.
      apply init_params_names. }
  unfold binds, passes.
  rewrite !Hvals, !defaults_argument by by_compute.
  intuition.
Qed.

(** A derivation whose arguments bind, sanitize and classify returns a new
    sleuth built from them. *)
Lemma permute_returns self kwargs σ func pith raw cause_indent
    exception_prefix random_int hint :
  first_unrecognized kwargs.*1 = None →
  passes (heap σ) self kwargs func pith raw cause_indent exception_prefix
    random_int →
  sanify_hint_child raw exception_prefix = Return hint →
  classifiable hint →
  permute self kwargs σ
  = (mkState
       (<[fresh (dom (heap σ)) :=
            built_object func pith cause_indent exception_prefix random_int
              hint]> (heap σ))
       (trace σ ++ hint_events raw exception_prefix hint),
     Return (fresh (dom (heap σ)))).
Proof.
  intros Hfirst Hpasses Hsanify Hclass. rewrite permute_run, Hfirst.
  unfold bind.
  destruct (permute_defaults_outcome self _INIT_PARAM_NAMES kwargs σ)
    as [(kwargs' & -> & Hvals & Hkeys)
       |(name & Hin & Hnone & Hattr & _)].
  - apply CauseSleuth_run; [|done..].
    by apply (defaults_bind self kwargs kwargs' σ).
  - exfalso. destruct Hpasses as (H1 & H2 & H3 & H4 & H5 & H6 & _).
    assert (argument (heap σ) self kwargs name = None) as Harg
      by (unfold argument; by rewrite Hnone).
    unfold _INIT_PARAM_NAMES in Hin.
    repeat (apply elem_of_cons in Hin as [->|Hin]; [congruence|]).
    by apply elem_of_nil in Hin.
Qed.

(** A derivation that returns returned the sleuth of [permute_returns]. *)
Lemma permute_inv self kwargs σ σ' new :
  permute self kwargs σ = (σ', Return new) →
  ∃ func pith raw cause_indent exception_prefix random_int hint,
    first_unrecognized kwargs.*1 = None ∧
    passes (heap σ) self kwargs func pith raw cause_indent exception_prefix
      random_int ∧
    sanify_hint_child raw exception_prefix = Return hint ∧
    classifiable hint ∧
    new = fresh (dom (heap σ)) ∧
    σ' = mkState
           (<[new := built_object func pith cause_indent exception_prefix
                       random_int hint]> (heap σ))
           (trace σ ++ hint_events raw exception_prefix hint).
Proof.
  rewrite permute_run.
  destruct (first_unrecognized kwargs.*1) eqn:Hfirst; [done|].
  unfold bind.
  destruct (permute_defaults_outcome self _INIT_PARAM_NAMES kwargs σ)
    as [(kwargs' & -> & Hvals & Hkeys)
       |(name & _ & _ & _ & slot & ->)]; [|done].
  intros (func & pith & raw & ci & ep & ri & hint & Hbinds & Hsanify & Hclass
          & Hnew & Hstate)%CauseSleuth_inv.
  exists func, pith, raw, ci, ep, ri, hint.
  split; [done|]. split; [|done].
  by apply (defaults_bind self kwargs kwargs' σ).
Qed.

(** The heap after [permute] is the heap before it, or that heap and one
    new object. *)
Lemma permute_heap self kwargs σ :
  heap (permute self kwargs σ).1 = heap σ ∨
  ∃ o, heap (permute self kwargs σ).1
       = <[fresh (dom (heap σ)) := o]> (heap σ).
Proof.
  rewrite permute_run.
  destruct (first_unrecognized kwargs.*1); [by left|].
  unfold bind.
  destruct (permute_defaults_outcome self _INIT_PARAM_NAMES kwargs σ)
    as [(kwargs' & -> & _)|(name & _ & _ & _ & slot & ->)]; [|by left].
  right. apply CauseSleuth_heap.
Qed.

End Permute.

(** * The claims on construction and derivation *)

Section Claims.
Context `{Collaborators}.
Implicit Types (σ : State) (self : loc) (kwargs : Kwargs)
  (o : gmap string Value).

(** C8. The hint of a sleuth is sanitized, then classified, while the
    sleuth is constructed: whenever the class is called, directly or by
    [permute], and returns, the hint argument went through
    [sanify_hint_child] first, the sign and the arguments were then read
    from the sanitized hint, the slot [_hint] holds the sanitized hint and
    the classification slots are those of the sanitized hint. *)
Theorem hint_sanified_then_classified :
  (∀ kwargs σ σ' new,
     CauseSleuth kwargs σ = (σ', Return new) →
     ∃ raw exception_prefix,
       kwargs_get "hint" kwargs = Some raw ∧
       kwargs_get "exception_prefix" kwargs = Some exception_prefix ∧
       sanified_then_classified σ σ' new raw exception_prefix) ∧
  (∀ self kwargs σ σ' new,
     permute self kwargs σ = (σ', Return new) →
     ∃ raw exception_prefix,
       argument (heap σ) self kwargs "hint" = Some raw ∧
       argument (heap σ) self kwargs "exception_prefix"
       = Some exception_prefix ∧
       sanified_then_classified σ σ' new raw exception_prefix).
Proof.
  split.
  - intros kwargs σ σ' new
      (func & pith & raw & ci & ep & ri & hint & Hbinds & Hsanify & Hclass
       & -> & ->)%CauseSleuth_inv.
    destruct Hbinds as (_ & _ & _ & Hraw & _ & Hprefix & _).
    exists raw, ep. split; [done|]. split; [done|].
    exists hint, (built_object func pith ci ep ri hint). cbn [heap trace].
    split; [done|]. split; [apply lookup_insert_eq|].
    split; [by apply built_object_classified | done].
  - intros self kwargs σ σ' new
      (func & pith & raw & ci & ep & ri & hint & _ & Hpasses & Hsanify
       & Hclass & -> & ->)%permute_inv.
    destruct Hpasses as (_ & _ & Hraw & _ & Hprefix & _).
    exists raw, ep. split; [done|]. split; [done|].
    exists hint, (built_object func pith ci ep ri hint). cbn [heap trace].
    split; [done|]. split; [apply lookup_insert_eq|].
    split; [by apply built_object_classified | done].
Qed.


(** Construction establishes well-formedness. *)
Lemma CauseSleuth_wf kwargs σ σ' self :
  CauseSleuth kwargs σ = (σ', Return self) →
  ∃ o, heap σ' !! self = Some o ∧ sleuth_wf o.
Proof.
  intros (func & pith & raw & ci & ep & ri & hint & Hbinds & Hsanify & Hclass
          & -> & ->)%CauseSleuth_inv.
  destruct Hbinds as (_ & _ & _ & _ & _ & _ & _ & Hc & Hs1 & Hs2 & Hi).
  eexists. cbn [heap]. split; [apply lookup_insert_eq|].
  by eapply built_object_wf.
Qed.



(** The heap of a state in which an object was allocated is not the heap
    before the allocation. *)
Lemma allocated_heap_differs (h : gmap loc (gmap string Value)) o :
  h ≠ <[fresh (dom h) := o]> h.
Proof.
  intros Heq.
  pose proof (lookup_insert_eq h (fresh (dom h)) o) as Hsome.
  rewrite <- Heq, fresh_unused in Hsome. done.
Qed.

(** C6 (as the code has it). [permute] raises
    [_BeartypeCallHintPepRaiseException], in the state in which it was
    called and so before any sleuth is constructed, exactly when a keyword
    is not one of the names of [_INIT_PARAM_NAMES]; the message names the
    first such keyword. *)
Theorem permute_raises_iff_unrecognized self kwargs σ :
  ((∃ arg_name, arg_name ∈ (kwargs.*1) ∧ arg_name ∉ _INIT_PARAM_NAMES) ↔
   (∃ msg, permute self kwargs σ
           = (σ, Raise (_BeartypeCallHintPepRaiseException msg)))) ∧
  (∀ arg_name,
     first_unrecognized kwargs.*1 = Some arg_name →
     arg_name ∈ (kwargs.*1) ∧ (arg_name ∉ _INIT_PARAM_NAMES) ∧
     permute self kwargs σ
     = (σ, Raise (_BeartypeCallHintPepRaiseException
                    (unrecognized_msg arg_name)))).
Proof.
  rewrite permute_run. split; [split|].
  - intros (arg_name & Hin & Hbad).
    destruct (first_unrecognized kwargs.*1) eqn:Hfirst; [eauto|].
    apply first_unrecognized_None in Hfirst.
    rewrite Forall_forall in Hfirst. by destruct Hbad; apply Hfirst.
  - intros [msg Hraise].
    destruct (first_unrecognized kwargs.*1) as [arg_name|] eqn:Hfirst.
    { apply first_unrecognized_Some in Hfirst. eauto. }
    exfalso. unfold bind in Hraise.
    destruct (permute_defaults_outcome self _INIT_PARAM_NAMES kwargs σ)
      as [(kwargs' & Hrun & _)|(name & _ & _ & _ & slot & Hrun)];
      rewrite Hrun in Hraise; [|done].
    destruct (CauseSleuth_heap kwargs' σ) as [o Hheap].
    rewrite Hraise in Hheap. by apply allocated_heap_differs in Hheap.
  - intros arg_name Hfirst. rewrite Hfirst.
    apply first_unrecognized_Some in Hfirst as [Hin Hbad]. done.
Qed.

(** C7. [permute] does not mutate the sleuth it is called on, nor any other
    object: whatever the keyword arguments are, and whether it returns or
    raises, every object of the heap is in the heap afterwards with the same
    slots; the sleuth it returns is a new object. *)
Theorem permute_preserves_heap self kwargs σ :
  heap σ ⊆ heap (permute self kwargs σ).1 ∧
  (∀ o, heap σ !! self = Some o →
        heap (permute self kwargs σ).1 !! self = Some o) ∧
  (∀ new, (permute self kwargs σ).2 = Return new →
          heap σ !! new = None ∧
          is_Some (heap (permute self kwargs σ).1 !! new)).
Proof.
  assert (heap σ ⊆ heap (permute self kwargs σ).1) as Hsub.
  { destruct (permute_heap self kwargs σ) as [->|[o ->]]; [done|].
    apply insert_subseteq, fresh_unused. }
  split; [done|]. split.
  - intros o Ho. by eapply lookup_weaken.
  - intros new Hnew.
    destruct (permute self kwargs σ) as [σ' r] eqn:Hrun. cbn in Hnew.
    subst r.
    apply permute_inv in Hrun
      as (func & pith & raw & ci & ep & ri & hint & _ & _ & _ & _ & -> & ->).
    cbn [fst heap]. split; [apply fresh_unused|].
    rewrite lookup_insert_eq. eauto.
Qed.

(** C10. [permute] checks keywords against the names of the parameters of
    [__init__], not against the slots: [hint] is accepted although the slot
    is [_hint], while [hint_sign], [hint_childs] and [_hint] are rejected
    although they are slots, assigned in every well-formed sleuth. *)
Theorem permute_checks_init_parameters self σ v :
  ("hint" ∈ _INIT_PARAM_NAMES ∧ "hint" ∉ __slots__) ∧
  ("hint_sign" ∈ __slots__ ∧ "hint_childs" ∈ __slots__ ∧
   "_hint" ∈ __slots__) ∧
  (∀ o, sleuth_wf o →
        is_Some (o !! "hint_sign") ∧ is_Some (o !! "hint_childs") ∧
        is_Some (o !! "_hint")) ∧
  permute self [("hint_sign", v)] σ
  = (σ, Raise (_BeartypeCallHintPepRaiseException
                 (unrecognized_msg "hint_sign"))) ∧
  permute self [("hint_childs", v)] σ
  = (σ, Raise (_BeartypeCallHintPepRaiseException
                 (unrecognized_msg "hint_childs"))) ∧
  permute self [("_hint", v)] σ
  = (σ, Raise (_BeartypeCallHintPepRaiseException
                 (unrecognized_msg "_hint"))) ∧
  permute self [("hint", v)] σ
  = bind (permute_defaults self _INIT_PARAM_NAMES [("hint", v)]) CauseSleuth σ ∧
  (∀ o exception_prefix hint,
     heap σ !! self = Some o →
     sleuth_wf o →
     o !! "exception_prefix" = Some exception_prefix →
     sanify_hint_child v exception_prefix = Return hint →
     classifiable hint →
     ∃ σ' new o',
       permute self [("hint", v)] σ = (σ', Return new) ∧
       heap σ' !! new = Some o' ∧ o' !! "_hint" = Some hint).
Proof.
  split; [split; by_compute|].
  split; [repeat split; by_compute|].
  split.
  { intros o (func & pith & ci & ep & ri & raw & hint & _ & _ & _ & _ & _ & _
              & _ & _ & _ & _ & Hhint & Hslots).
    rewrite Hhint. destruct (is_hint_pep hint).
    - destruct Hslots as (sign & _ & -> & ->). eauto.
    - destruct Hslots as [-> ->]. eauto. }
  do 4 (split; [by rewrite permute_run|]).
  intros o ep hint Ho
    (func & pith & ci & ep' & ri & raw & hint0 & Hfunc & Hcallable & Hpith
     & Hci & Hstr1 & Hep & Hstr2 & Hri & Hint & _ & _) Hprefix Hsanify Hclass.
  assert (ep' = ep) as -> by congruence.
  eexists _, _, (built_object func pith ci ep ri hint).
  split.
  - eapply permute_returns; [reflexivity| |exact Hsanify|exact Hclass].
    unfold passes, argument, attr. cbn. rewrite Ho. cbn.
    by repeat (split; [assumption || reflexivity|]).
  - cbn [heap]. split; [apply lookup_insert_eq|].
    apply built_object_slots.
Qed.

End Claims.

(** * Runs in the concrete catalogue *)

Section Runs.
#[local] Existing Instance Catalogue.catalogue.
Import Catalogue.

Local Abbreviation x := (VInt 3).

Lemma catalogue_constructs hint pith :
  (CauseSleuth (top_kwargs hint pith) empty_state).2 = Return 1%positive →
  CauseSleuth (top_kwargs hint pith) empty_state
  = (state_of hint pith, Return 1%positive).
Proof.
  unfold state_of. destruct (CauseSleuth _ _) as [σ r]. cbn. by intros ->.
Qed.

Lemma catalogue_wf hint pith :
  (CauseSleuth (top_kwargs hint pith) empty_state).2 = Return 1%positive →
  heap (state_of hint pith) !! 1%positive = Some (object_of hint pith) ∧
  sleuth_wf (object_of hint pith).
Proof.
  intros Hrun%catalogue_constructs.
  destruct (CauseSleuth_wf _ _ _ _ Hrun) as (o & Ho & Hwf).
  unfold object_of. rewrite Ho. done.
Qed.

(** C1, as stated, fails twice. The sleuth for [Frob[int]] is tagged with the
    sign [frobnicate], which is not dispatched to the origin-type getter and
    has no getter in the table; [get_cause_or_none] raises, and the message
    does not contain [frobnicate]. The sleuth for [typing.Any] is tagged with
    a sign of the same kind, and [get_cause_or_none] returns [None]. *)
Lemma unsupported_message_omits_sign :
  (object_of Frob_int x !! "hint_sign" = Some (VSign "frobnicate") ∧
   ¬ shallow "frobnicate" Frob_int ∧
   PEP_HINT_SIGN_TO_GET_CAUSE_FUNC !! "frobnicate" = None ∧
   ∃ msg, (get_cause_or_none 1%positive (state_of Frob_int x)).2
          = Raise (_BeartypeCallHintPepRaiseException msg) ∧
          str_in "frobnicate" msg = false) ∧
  (object_of Any x !! "hint_sign" = Some (VSign "Any") ∧
   ¬ shallow "Any" Any ∧
   PEP_HINT_SIGN_TO_GET_CAUSE_FUNC !! "Any" = None ∧
   (get_cause_or_none 1%positive (state_of Any x)).2 = Return None).
Proof.
  split.
  - split; [vm_compute; reflexivity|].
    split; [apply shallowb_false; vm_compute; reflexivity|].
    split; [vm_compute; reflexivity|].
    eexists. split; vm_compute; reflexivity.
  - split; [vm_compute; reflexivity|].
    split; [apply shallowb_false; vm_compute; reflexivity|].
    split; vm_compute; reflexivity.
Qed.

Lemma unsupported_hint_raises_witness :
  (get_cause_or_none 1%positive (state_of Frob_int x)).2
  = Raise (_BeartypeCallHintPepRaiseException
             (unsupported_msg (VStr "@beartyped muh_func() parameter x")
                Frob_int)) ∧
  str_in (repr Frob_int)
    (unsupported_msg (VStr "@beartyped muh_func() parameter x") Frob_int)
  = true.
Proof.
  destruct (unsupported_hint_raises (state_of Frob_int x) 1%positive
              (object_of Frob_int x) Frob_int "frobnicate"
              (VStr "@beartyped muh_func() parameter x"))
    as (Hrun & Hrepr & _).
  - vm_compute; reflexivity.
  - vm_compute; reflexivity.
  - vm_compute; reflexivity.
  - vm_compute; reflexivity.
  - vm_compute; reflexivity.
  - apply shallowb_false. vm_compute; reflexivity.
  - vm_compute; reflexivity.
  - split; [by rewrite Hrun | exact Hrepr].
Defined.

Lemma ignorable_hint_has_no_cause_witness :
  get_cause_or_none 1%positive (state_of Any x)
  = (after (state_of Any x) [EvIsIgnorable Any], Return None).
Proof.
  apply (ignorable_hint_has_no_cause (state_of Any x) 1%positive
           (object_of Any x) Any); vm_compute; reflexivity.
Defined.

Lemma untagged_hint_dispatch_witness :
  get_cause_or_none 1%positive (state_of (VTuple [cls_int; cls_str]) x)
  = get_cause_or_none_instance_types_tuple 1%positive
      (after (state_of (VTuple [cls_int; cls_str]) x)
         [EvIsIgnorable (VTuple [cls_int; cls_str]);
          EvGetter ViaInstanceTypesTuple 1%positive]) ∧
  get_cause_or_none 1%positive (state_of cls_int x)
  = get_cause_or_none_instance_type 1%positive
      (after (state_of cls_int x)
         [EvIsIgnorable cls_int; EvGetter ViaInstanceType 1%positive]).
Proof.
  split.
  - apply (untagged_hint_dispatch (state_of (VTuple [cls_int; cls_str]) x) 1%positive
             (object_of (VTuple [cls_int; cls_str]) x) (VTuple [cls_int; cls_str]));
      vm_compute; reflexivity.
  - apply (untagged_hint_dispatch (state_of cls_int x) 1%positive
             (object_of cls_int x) cls_int); vm_compute; reflexivity.
Defined.

Lemma tagged_hint_dispatch_witness :
  shallow "Iterable" Iterable_int ∧
  get_cause_or_none 1%positive (state_of Iterable_int x)
  = get_cause_or_none_type_instance_origin 1%positive
      (after (state_of Iterable_int x)
         (EvIsIgnorable Iterable_int :: shallow_events "Iterable" Iterable_int
          ++ [EvGetter ViaTypeInstanceOrigin 1%positive])).
Proof.
  assert (shallow "Iterable" Iterable_int) as Hshallow
    by (apply shallowb_spec; vm_compute; reflexivity).
  split; [exact Hshallow|].
  destruct (tagged_hint_dispatch (state_of Iterable_int x) 1%positive
              (object_of Iterable_int x) Iterable_int "Iterable"
              (VStr "@beartyped muh_func() parameter x"))
    as (_ & Hrun & _).
  - vm_compute; reflexivity.
  - vm_compute; reflexivity.
  - vm_compute; reflexivity.
  - vm_compute; reflexivity.
  - vm_compute; reflexivity.
  - exact (proj1 (Hrun Hshallow)).
Defined.



(** C6, as stated, fails: [hint_sign] is the name of a slot of the sleuth,
    assigned in it, and [permute] raises for that keyword alone. *)
Lemma permute_rejects_assigned_slot :
  heap (state_of List_int x) !! 1%positive = Some (object_of List_int x) ∧
  "hint_sign" ∈ __slots__ ∧
  (∀ name, name ∈ [("hint_sign", VNone)].*1 →
           is_Some (object_of List_int x !! name)) ∧
  permute 1%positive [("hint_sign", VNone)] (state_of List_int x)
  = (state_of List_int x,
     Raise (_BeartypeCallHintPepRaiseException
              (unrecognized_msg "hint_sign"))).
Proof.
  split; [vm_compute; reflexivity|]. split; [by_compute|]. split.
  - intros name Hin. apply list_elem_of_singleton in Hin as ->.
    vm_compute. eauto.
  - vm_compute; reflexivity.
Qed.

Lemma permute_raises_iff_unrecognized_witness :
  permute 1%positive [("pith", VInt 4); ("piht", VInt 5)]
    (state_of List_int x)
  = (state_of List_int x,
     Raise (_BeartypeCallHintPepRaiseException (unrecognized_msg "piht"))).
Proof.
  apply (proj2 (permute_raises_iff_unrecognized 1%positive
                  [("pith", VInt 4); ("piht", VInt 5)] (state_of List_int x))
           "piht").
  vm_compute; reflexivity.
Defined.

Lemma permute_preserves_heap_witness :
  heap (permute 1%positive [("pith", VInt 4)] (state_of List_int x)).1
    !! 1%positive = Some (object_of List_int x) ∧
  heap (permute 1%positive [("cause_indent", VInt 4)] (state_of List_int x)).1
    !! 1%positive = Some (object_of List_int x).
Proof.
  split.
  - apply (proj1 (proj2 (permute_preserves_heap 1%positive [("pith", VInt 4)]
                           (state_of List_int x)))).
    vm_compute; reflexivity.
  - apply (proj1 (proj2 (permute_preserves_heap 1%positive
                           [("cause_indent", VInt 4)] (state_of List_int x)))).
    vm_compute; reflexivity.
Defined.

Lemma hint_sanified_then_classified_witness :
  ∃ raw exception_prefix,
    kwargs_get "hint" (top_kwargs NDArray x) = Some raw ∧
    kwargs_get "exception_prefix" (top_kwargs NDArray x)
    = Some exception_prefix ∧
    sanified_then_classified empty_state (state_of NDArray x) 1%positive raw
      exception_prefix.
Proof.
  apply (proj1 hint_sanified_then_classified (top_kwargs NDArray x)
           empty_state (state_of NDArray x) 1%positive).
  vm_compute; reflexivity.
Defined.


Lemma permute_checks_init_parameters_witness :
  permute 1%positive [("hint_childs", VTuple [])] (state_of List_int x)
  = (state_of List_int x,
     Raise (_BeartypeCallHintPepRaiseException
              (unrecognized_msg "hint_childs"))) ∧
  ∃ σ' new o',
    permute 1%positive [("hint", NDArray)] (state_of List_int x)
    = (σ', Return new) ∧
    heap σ' !! new = Some o' ∧ o' !! "_hint" = Some Annotated_ndarray.
Proof.
  destruct (permute_checks_init_parameters 1%positive (state_of List_int x)
              (VTuple [])) as (_ & _ & _ & _ & Hchilds & _).
  split; [exact Hchilds|].
  destruct (permute_checks_init_parameters 1%positive (state_of List_int x)
              NDArray) as (_ & _ & _ & _ & _ & _ & _ & Hhint).
  destruct (catalogue_wf List_int x) as [Ho Hwf]; [vm_compute; reflexivity|].
  apply (Hhint (object_of List_int x)
           (VStr "@beartyped muh_func() parameter x") Annotated_ndarray Ho Hwf).
  - vm_compute; reflexivity.
  - vm_compute; reflexivity.
  - intros _. exists "Annotated". vm_compute; reflexivity.
Defined.

End Runs.

(** * Further properties of the sleuth *)

Section Setter.
Context `{Collaborators}.
Implicit Types (σ : State) (self : loc) (o : gmap string Value).

Lemma bind_ret_r {A} (m : M A) σ : bind m ret σ = m σ.
Proof. unfold bind, ret. destruct (m σ) as [σ' [a|e]]; reflexivity. Qed.

Lemma state_insert_id σ self o :
  heap σ !! self = Some o →
  σ = mkState (<[self := o]> (heap σ)) (trace σ).
Proof. intros Ho. destruct σ. cbn in *. by rewrite insert_id. Qed.

(** Assigning the [hint] property of an existing sleuth stores the sanitized
    hint, and classifies it only when it is PEP-compliant: the sign and the
    arguments of a PEP-compliant hint replace the old ones, while for any
    other hint the slots [hint_sign] and [hint_childs] keep the values they
    had for the previous hint. *)
Theorem hint_setter_reclassifies_pep_only σ self o raw exception_prefix hint :
  heap σ !! self = Some o →
  o !! "exception_prefix" = Some exception_prefix →
  sanify_hint_child raw exception_prefix = Return hint →
  classifiable hint →
  ∃ o',
    hint_setter self raw σ
    = (mkState (<[self := o']> (heap σ))
         (trace σ ++ hint_events raw exception_prefix hint), Return tt) ∧
    o' !! "_hint" = Some hint ∧
    (is_hint_pep hint = true → classified o' hint) ∧
    (is_hint_pep hint = false →
       o' !! "hint_sign" = o !! "hint_sign" ∧
       o' !! "hint_childs" = o !! "hint_childs") ∧
    (∀ name, name ∉ ["_hint"; "hint_sign"; "hint_childs"] →
             o' !! name = o !! name).
Proof.
  intros Ho Hprefix Hsanify Hclass.
  pose proof (hint_setter_new self o (heap σ) (trace σ) raw exception_prefix
                ret Hprefix) as Hrun.
  rewrite <- (state_insert_id σ self o Ho), bind_ret_r, Hsanify in Hrun.
  rewrite Hrun. clear Hrun.
  unfold classified. destruct (is_hint_pep hint) eqn:Hpep.
  - destruct (Hclass Hpep) as [sign Hsign]. rewrite Hsign.
    eexists. split; [reflexivity|].
    split; [apply lookup_insert_eq|]. split.
    + intros _. split; [apply lookup_insert_eq|]. exists sign.
      split; [done|]. split.
      * rewrite lookup_insert_ne, lookup_insert_ne, lookup_insert_eq; done.
      * rewrite lookup_insert_ne, lookup_insert_eq; done.
    + split; [done|]. intros name Hname.
      rewrite !lookup_insert_ne; [done|..];
        intros <-; apply Hname; by_compute.
  - eexists. split; [reflexivity|].
    split; [apply lookup_insert_eq|]. split; [done|]. split.
    + intros _. rewrite !lookup_insert_ne; done.
    + intros name Hname. rewrite lookup_insert_ne; [done|].
      intros <-. apply Hname. by_compute.
Qed.

End Setter.

Ltac exec_step :=
  first
    [ rewrite bind_assoc
    | rewrite run_ret
    | rewrite run_raise
    | rewrite run_log
    | rewrite run_alloc
    | rewrite run_lift
    | rewrite run_assert
    | rewrite run_set_slot by reflexivity
    | rewrite set_slot_new by reflexivity ];
  cbv beta; cbn [heap trace].

Section Failures.
Context `{Collaborators}.
Implicit Types (σ : State) (self : loc) (kwargs : Kwargs)
  (o : gmap string Value).

(** The state after a construction that allocated the object [o] and made
    the calls [events]. *)
Local Abbreviation built σ o events :=
  (mkState (<[fresh (dom (heap σ)) := o]> (heap σ)) (trace σ ++ events)).

(** A construction whose arguments fail an assertion of [__init__] raises
    [AssertionError] with the message of the first assertion that fails, in
    the order [func], [cause_indent], [exception_prefix], [random_int]. No
    slot of the new object is assigned and no hint utility is called. *)
Theorem failed_assertion_assigns_nothing kwargs σ func pith raw cause_indent
    exception_prefix random_int :
  filter (λ kv, kv.1 ∉ init_params) kwargs = [] →
  kwargs_get "func" kwargs = Some func →
  kwargs_get "pith" kwargs = Some pith →
  kwargs_get "hint" kwargs = Some raw →
  kwargs_get "cause_indent" kwargs = Some cause_indent →
  kwargs_get "exception_prefix" kwargs = Some exception_prefix →
  kwargs_get "random_int" kwargs = Some random_int →
  callable func && isinstance_str cause_indent
    && isinstance_str exception_prefix
    && isinstance_NoneTypeOr_int random_int = false →
  CauseSleuth kwargs σ
  = (mkState (<[fresh (dom (heap σ)) := ∅]> (heap σ)) (trace σ),
     Raise (AssertionError
              (if negb (callable func) then repr func +:+ " not callable."
               else if negb (isinstance_str cause_indent)
               then repr cause_indent +:+ " not string."
               else if negb (isinstance_str exception_prefix)
               then repr exception_prefix +:+ " not string."
               else repr random_int +:+ " not integer or " +:+ dquote
                    +:+ "None" +:+ dquote +:+ "."))).
Proof.
  intros Hextra Hfunc Hpith Hraw Hindent Hprefix Hrandom Hfails.
  unfold CauseSleuth, bind_arg, __init__.
  rewrite run_alloc, Hextra, Hfunc, Hpith, Hraw, Hindent, Hprefix, Hrandom.
  do 8 exec_step.
  destruct (callable func); [|reflexivity]. exec_step.
  destruct (isinstance_str cause_indent); [|reflexivity]. exec_step.
  destruct (isinstance_str exception_prefix); [|reflexivity]. exec_step.
  destruct (isinstance_NoneTypeOr_int random_int); [done|reflexivity].
Qed.

(** With arguments that bind and pass the assertions, the constructor
    reaches the setter of [hint] on the object holding the parameters. *)
Lemma CauseSleuth_reaches_setter kwargs σ func pith raw cause_indent
    exception_prefix random_int :
  binds kwargs func pith raw cause_indent exception_prefix random_int →
  CauseSleuth kwargs σ
  = bind (hint_setter (fresh (dom (heap σ))) raw)
      (λ _, ret (fresh (dom (heap σ))))
      (mkState
         (<[fresh (dom (heap σ)) :=
              unclassified_object func pith cause_indent exception_prefix
                random_int]> (heap σ)) (trace σ)).
Proof.
  intros (Hextra & Hfunc & Hpith & Hraw & Hindent & Hprefix & Hrandom &
          Hcallable & Hstr1 & Hstr2 & Hint).
  unfold CauseSleuth, bind_arg, __init__.
  rewrite run_alloc, Hextra, Hfunc, Hpith, Hraw, Hindent, Hprefix, Hrandom.
  do 8 exec_step.
  rewrite Hcallable, Hstr1, Hstr2, Hint. cbn [assert].
  repeat exec_step. reflexivity.
Qed.

(** An exception raised by [sanify_hint_child], or by [get_hint_pep_sign] on
    a PEP-compliant sanitized hint, leaves the constructor unchanged. The
    object under construction then has its parameters and [None] for
    [hint_sign] and [hint_childs], and its slot [_hint] is not assigned. *)
Theorem hint_utility_exception_propagates kwargs σ func pith raw cause_indent
    exception_prefix random_int :
  binds kwargs func pith raw cause_indent exception_prefix random_int →
  let o := unclassified_object func pith cause_indent exception_prefix
             random_int in
  o !! "_hint" = None ∧
  (∀ e, sanify_hint_child raw exception_prefix = Raise e →
        CauseSleuth kwargs σ
        = (built σ o [EvSanify raw exception_prefix], Raise e)) ∧
  (∀ hint e,
     sanify_hint_child raw exception_prefix = Return hint →
     is_hint_pep hint = true →
     get_hint_pep_sign hint = Raise e →
     CauseSleuth kwargs σ
     = (built σ o [EvSanify raw exception_prefix; EvIsHintPep hint;
                   EvGetSign hint], Raise e)).
Proof.
  intros Hbinds o. split; [reflexivity|].
  rewrite (CauseSleuth_reaches_setter _ _ _ _ _ _ _ _ Hbinds).
  erewrite hint_setter_new by reflexivity.
  split.
  - intros e ->. reflexivity.
  - intros hint e -> -> ->. reflexivity.
Qed.

End Failures.

Section Derivations.
Context `{Collaborators}.
Implicit Types (σ : State) (self : loc) (kwargs : Kwargs)
  (o : gmap string Value).

Lemma permute_defaults_present self arg_names kwargs σ :
  (∀ name, name ∈ arg_names → is_Some (kwargs_get name kwargs)) →
  permute_defaults self arg_names kwargs σ = (σ, Return kwargs).
Proof.
  induction arg_names as [|arg_name rest IH]; intros Hall;
    cbn [permute_defaults]; [reflexivity|].
  destruct (Hall arg_name) as [v ->]; [apply elem_of_cons; by left|].
  apply IH. intros name Hin. apply Hall, elem_of_cons. by right.
Qed.

(** A derivation that overrides every parameter of [__init__] is the
    construction from its keyword arguments: no attribute of the sleuth it is
    called on is read. *)
Theorem permute_all_overridden self kwargs σ :
  first_unrecognized kwargs.*1 = None →
  (∀ name, name ∈ _INIT_PARAM_NAMES → is_Some (kwargs_get name kwargs)) →
  permute self kwargs σ = CauseSleuth kwargs σ.
Proof.
  intros Hfirst Hall. rewrite permute_run, Hfirst. unfold bind.
  by rewrite permute_defaults_present.
Qed.

(** The construction reads its keyword arguments by name only. *)
Lemma CauseSleuth_ext kwargs1 kwargs2 σ :
  filter (λ kv, kv.1 ∉ init_params) kwargs1 = [] →
  filter (λ kv, kv.1 ∉ init_params) kwargs2 = [] →
  (∀ name, name ∈ init_params →
           kwargs_get name kwargs1 = kwargs_get name kwargs2) →
  CauseSleuth kwargs1 σ = CauseSleuth kwargs2 σ.
Proof.
  intros Hextra1 Hextra2 Hget. unfold CauseSleuth, bind_arg.
  rewrite Hextra1, Hextra2, !Hget by by_compute. reflexivity.
Qed.

(** The order in which the second loop of [permute] visits the names of
    [_INIT_PARAM_NAMES] does not matter: when every parameter has an
    argument, visiting them in any other order gives the same run. *)
Theorem permute_order_irrelevant self kwargs σ arg_names :
  arg_names ≡ₚ _INIT_PARAM_NAMES →
  first_unrecognized kwargs.*1 = None →
  (∀ name, name ∈ _INIT_PARAM_NAMES →
           is_Some (argument (heap σ) self kwargs name)) →
  bind (permute_defaults self arg_names kwargs) CauseSleuth σ
  = permute self kwargs σ.
Proof.
  intros Hperm Hfirst Hargs. rewrite permute_run, Hfirst. unfold bind.
  assert (Forall (λ name, name ∈ init_params) kwargs.*1) as Hkw.
  { apply first_unrecognized_None in Hfirst.
    eapply Forall_impl; [exact Hfirst|]. apply init_params_names. }
  assert (Forall (λ name, name ∈ init_params) _INIT_PARAM_NAMES) as Hnames
    by (apply Forall_forall, init_params_names).
  destruct (permute_defaults_outcome self _INIT_PARAM_NAMES kwargs σ)
    as [(kwargs2 & -> & Hvals2 & Hkeys2)
       |(name & Hin & Hnone & Hattr & _)].
  2: { destruct (Hargs name Hin) as [v Hv]. unfold argument in Hv.
       rewrite Hnone, Hattr in Hv. done. }
  destruct (permute_defaults_outcome self arg_names kwargs σ)
    as [(kwargs1 & -> & Hvals1 & Hkeys1)
       |(name & Hin & Hnone & Hattr & _)].
  2: { rewrite Hperm in Hin. destruct (Hargs name Hin) as [v Hv].
       unfold argument in Hv. rewrite Hnone, Hattr in Hv. done. }
  apply CauseSleuth_ext.
  - apply no_extra_keyword, Hkeys1; [by rewrite Hperm | done].
  - by apply no_extra_keyword, Hkeys2.
  - intros name _. rewrite Hvals1, Hvals2.
    destruct (kwargs_get name kwargs); [done|].
    rewrite (bool_decide_ext (name ∈ arg_names) (name ∈ _INIT_PARAM_NAMES));
      [done | by rewrite Hperm].
Qed.

(** Well-formedness is established by every construction and kept by every
    derivation, whatever the sleuth [permute] was called on. A sleuth
    returned by the class was passed arguments that pass the assertions of
    [__init__]; its slots hold those arguments, its [_hint] holds the result
    of sanitizing the [hint] argument under the [exception_prefix] argument,
    and its [hint_sign] and [hint_childs] are the classification of that
    result. The same holds of a sleuth returned by [permute], for the
    arguments that [permute] passes to [__init__]. *)
Theorem returned_sleuth_wf :
  (∀ kwargs σ σ' new,
     CauseSleuth kwargs σ = (σ', Return new) →
     ∃ func pith raw cause_indent exception_prefix random_int hint o,
       binds kwargs func pith raw cause_indent exception_prefix random_int ∧
       sanify_hint_child raw exception_prefix = Return hint ∧
       heap σ' !! new = Some o ∧
       o !! "func" = Some func ∧
       o !! "pith" = Some pith ∧
       o !! "cause_indent" = Some cause_indent ∧
       o !! "exception_prefix" = Some exception_prefix ∧
       o !! "random_int" = Some random_int ∧
       classified o hint ∧
       sleuth_wf o) ∧
  (∀ self kwargs σ σ' new,
     permute self kwargs σ = (σ', Return new) →
     ∃ func pith raw cause_indent exception_prefix random_int hint o,
       passes (heap σ) self kwargs func pith raw cause_indent
         exception_prefix random_int ∧
       sanify_hint_child raw exception_prefix = Return hint ∧
       heap σ' !! new = Some o ∧
       o !! "func" = Some func ∧
       o !! "pith" = Some pith ∧
       o !! "cause_indent" = Some cause_indent ∧
       o !! "exception_prefix" = Some exception_prefix ∧
       o !! "random_int" = Some random_int ∧
       classified o hint ∧
       sleuth_wf o).
Proof.
  split.
  - intros kwargs σ σ' new
      (func & pith & raw & ci & ep & ri & hint & Hbinds & Hsanify & Hclass
       & -> & ->)%CauseSleuth_inv.
    exists func, pith, raw, ci, ep, ri, hint,
      (built_object func pith ci ep ri hint).
    do 2 (split; [assumption|]). cbn [heap].
    split; [apply lookup_insert_eq|].
    destruct (built_object_slots func pith ci ep ri hint)
      as (? & ? & ? & ? & ? & _).
    do 5 (split; [assumption|]).
    split; [by apply built_object_classified|].
    destruct Hbinds as (_ & _ & _ & _ & _ & _ & _ & Hc & Hs1 & Hs2 & Hi).
    by eapply built_object_wf.
  - intros self kwargs σ σ' new
      (func & pith & raw & ci & ep & ri & hint & _ & Hpasses & Hsanify
       & Hclass & -> & ->)%permute_inv.
    exists func, pith, raw, ci, ep, ri, hint,
      (built_object func pith ci ep ri hint).
    do 2 (split; [assumption|]). cbn [heap].
    split; [apply lookup_insert_eq|].
    destruct (built_object_slots func pith ci ep ri hint)
      as (? & ? & ? & ? & ? & _).
    do 5 (split; [assumption|]).
    split; [by apply built_object_classified|].
    destruct Hpasses as (_ & _ & _ & _ & _ & _ & Hc & Hs1 & Hs2 & Hi).
    by eapply built_object_wf.
Qed.

(** The constructor does not touch the objects of the heap: whether it
    returns or raises, every object is still there with the same slots, and
    a returned reference was not in use before. *)
Theorem CauseSleuth_preserves_heap kwargs σ :
  heap σ ⊆ heap (CauseSleuth kwargs σ).1 ∧
  (∀ new, (CauseSleuth kwargs σ).2 = Return new →
          heap σ !! new = None ∧
          is_Some (heap (CauseSleuth kwargs σ).1 !! new)).
Proof.
  destruct (CauseSleuth_heap kwargs σ) as [o Hheap]. split.
  - rewrite Hheap. apply insert_subseteq, fresh_unused.
  - intros new Hnew.
    destruct (CauseSleuth kwargs σ) as [σ' r] eqn:Hrun. cbn in Hnew. subst r.
    apply CauseSleuth_inv in Hrun
      as (func & pith & raw & ci & ep & ri & hint & _ & _ & _ & -> & ->).
    cbn [fst heap]. split; [apply fresh_unused|].
    rewrite lookup_insert_eq. eauto.
Qed.

(** A derivation whose hint argument the sanitizer rejects raises the
    exception of the sanitizer, after that call alone. *)
Theorem permute_propagates_sanitizer_exception self kwargs σ func pith raw
    cause_indent exception_prefix random_int e :
  first_unrecognized kwargs.*1 = None →
  passes (heap σ) self kwargs func pith raw cause_indent exception_prefix
    random_int →
  sanify_hint_child raw exception_prefix = Raise e →
  (permute self kwargs σ).2 = Raise e ∧
  trace (permute self kwargs σ).1
  = trace σ ++ [EvSanify raw exception_prefix].
Proof.
  intros Hfirst Hpasses Hsanify. rewrite permute_run, Hfirst. unfold bind.
  destruct (permute_defaults_outcome self _INIT_PARAM_NAMES kwargs σ)
    as [(kwargs' & -> & Hvals & Hkeys)
       |(name & Hin & Hnone & Hattr & _)].
  - apply (defaults_bind self kwargs kwargs' σ) in Hpasses; [|done..].
    rewrite (CauseSleuth_reaches_setter _ _ _ _ _ _ _ _ Hpasses).
    erewrite hint_setter_new by reflexivity. by rewrite Hsanify.
  - exfalso. destruct Hpasses as (H1 & H2 & H3 & H4 & H5 & H6 & _).
    assert (argument (heap σ) self kwargs name = None) as Harg
      by (unfold argument; by rewrite Hnone).
    unfold _INIT_PARAM_NAMES in Hin.
    repeat (apply elem_of_cons in Hin as [->|Hin]; [congruence|]).
    by apply elem_of_nil in Hin.
Qed.

End Derivations.

Section Reads.
Context `{Collaborators}.
Implicit Types (σ : State) (self : loc) (o : gmap string Value).

Lemma run_get_slot_None {B} σ self o name (k : Value → M B) :
  heap σ !! self = Some o → o !! name = None →
  bind (get_slot self name) k σ = (σ, Raise (AttributeError name)).
Proof.
  intros Ho Hv. unfold bind. rewrite (get_slot_None _ _ _ _ Ho Hv). reflexivity.
Qed.

Ltac read_step :=
  first
    [ rewrite getattr_hint
    | rewrite bind_assoc
    | rewrite run_ret
    | rewrite run_log_after
    | erewrite run_get_slot by (cbn [heap after]; eassumption)
    | erewrite run_get_slot_None by (cbn [heap after]; eassumption) ];
  cbv beta.

(** The selection of the getter reads the slots [_hint], [hint_sign] and
    [exception_prefix] and no other: on two sleuths that agree on these
    three, whatever their pith, callable, indentation, random integer and
    [hint_childs] are, it makes the same calls and ends in the same way, with
    the same getter chosen by the same branch or the same exception. *)
Theorem select_getter_reads_three_slots σ1 σ2 self o1 o2 :
  heap σ1 !! self = Some o1 →
  heap σ2 !! self = Some o2 →
  o1 !! "_hint" = o2 !! "_hint" →
  o1 !! "hint_sign" = o2 !! "hint_sign" →
  o1 !! "exception_prefix" = o2 !! "exception_prefix" →
  ∃ events outcome,
    select_getter self σ1 = (after σ1 events, outcome) ∧
    select_getter self σ2 = (after σ2 events, outcome).
Proof.
  intros Ho1 Ho2 Hhint Hsign Hprefix.
  assert (∀ (r : Outcome (Route * (loc → M (option string)))),
            ∃ events outcome, (σ1, r) = (after σ1 events, outcome) ∧
                              (σ2, r) = (after σ2 events, outcome)) as Hnil.
  { intros r. exists [], r. by rewrite !after_nil. }
  unfold select_getter, checked_shallowly.
  destruct (o2 !! "hint_sign") as [hint_sign|] eqn:Hsign2;
    [|repeat read_step; apply Hnil].
  destruct (o2 !! "_hint") as [hint|] eqn:Hhint2;
    destruct (o2 !! "exception_prefix") as [exception_prefix|] eqn:Hprefix2;
    repeat read_step;
    destruct (is_None hint_sign);
    repeat read_step;
    try destruct (isinstance_tuple hint);
    repeat read_step;
    try apply Hnil;
    destruct (sign_in hint_sign HINT_SIGNS_ORIGIN_ISINSTANCEABLE);
    repeat read_step;
    try apply Hnil;
    try destruct (negb (is_hint_pep_args hint));
    repeat read_step;
    try destruct (negb (sign_in hint_sign HINT_SIGNS_SUPPORTED_DEEP));
    repeat read_step;
    try destruct (table_get hint_sign);
    repeat read_step;
    rewrite ?after_after;
    eauto.
Qed.

End Reads.

(** * Further runs in the concrete catalogue *)

Section MoreRuns.
#[local] Existing Instance Catalogue.catalogue.
Import Catalogue.

Local Abbreviation x := (VInt 3).
Local Abbreviation prefix := (VStr "@beartyped muh_func() parameter x").

(** A sleuth built for [typing.List[int]] and then assigned the class [int]
    still carries the sign and the arguments of the list hint. *)
Lemma hint_setter_reclassifies_pep_only_witness :
  ∃ o',
    hint_setter 1%positive cls_int (state_of List_int x)
    = (mkState (<[1%positive := o']> (heap (state_of List_int x)))
         (trace (state_of List_int x) ++ hint_events cls_int prefix cls_int),
       Return tt) ∧
    o' !! "_hint" = Some cls_int ∧
    o' !! "hint_sign" = Some (VSign "List") ∧
    o' !! "hint_childs" = Some (VTuple [cls_int]).
Proof.
  destruct (hint_setter_reclassifies_pep_only (state_of List_int x) 1%positive
              (object_of List_int x) cls_int prefix cls_int)
    as (o' & Hrun & Hhint & _ & Hstale & _).
  - vm_compute; reflexivity.
  - vm_compute; reflexivity.
  - vm_compute; reflexivity.
  - intros Hpep. vm_compute in Hpep. discriminate.
  - destruct Hstale as [Hsign Hchilds]; [vm_compute; reflexivity|].
    exists o'. split; [exact Hrun|]. split; [exact Hhint|].
    split; [rewrite Hsign | rewrite Hchilds]; vm_compute; reflexivity.
Defined.

Lemma failed_assertion_assigns_nothing_witness :
  CauseSleuth
    [("func", VInt 5); ("pith", x); ("hint", List_int);
     ("cause_indent", VStr EmptyString); ("exception_prefix", VNone);
     ("random_int", VNone)] empty_state
  = (mkState {[ 1%positive := ∅ ]} [],
     Raise (AssertionError "5 not callable.")).
Proof.
  rewrite (failed_assertion_assigns_nothing _ empty_state (VInt 5) x List_int
             (VStr EmptyString) VNone VNone);
    vm_compute; reflexivity.
Defined.

Lemma hint_utility_exception_propagates_witness :
  CauseSleuth (top_kwargs (VObject "typing.Unsupported") x) empty_state
  = (mkState
       {[ 1%positive :=
            unclassified_object (VCallable "muh_func") x (VStr EmptyString)
              prefix VNone ]}
       [EvSanify (VObject "typing.Unsupported") prefix],
     Raise (HintError "BeartypeDecorHintPepUnsupportedException"
              "unsupported")).
Proof.
  destruct (hint_utility_exception_propagates
              (top_kwargs (VObject "typing.Unsupported") x) empty_state
              (VCallable "muh_func") x (VObject "typing.Unsupported")
              (VStr EmptyString) prefix VNone) as (_ & Hraise & _).
  - repeat split; vm_compute; reflexivity.
  - rewrite (Hraise _ eq_refl). vm_compute; reflexivity.
Defined.

Lemma permute_all_overridden_witness :
  permute 7%positive (top_kwargs List_int x) empty_state
  = CauseSleuth (top_kwargs List_int x) empty_state.
Proof.
  apply permute_all_overridden; [vm_compute; reflexivity|].
  intros name Hin. unfold _INIT_PARAM_NAMES in Hin.
  repeat (apply elem_of_cons in Hin as [->|Hin]; [vm_compute; eauto|]).
  by apply elem_of_nil in Hin.
Defined.

Lemma permute_order_irrelevant_witness :
  bind (permute_defaults 1%positive (reverse _INIT_PARAM_NAMES)
          [("pith", VInt 4)]) CauseSleuth (state_of List_int x)
  = permute 1%positive [("pith", VInt 4)] (state_of List_int x).
Proof.
  apply permute_order_irrelevant.
  - apply reverse_Permutation.
  - vm_compute; reflexivity.
  - intros name Hin. unfold _INIT_PARAM_NAMES in Hin.
    repeat (apply elem_of_cons in Hin as [->|Hin]; [vm_compute; eauto|]).
    by apply elem_of_nil in Hin.
Defined.

Lemma returned_sleuth_wf_witness :
  ∃ hint o,
    sanify_hint_child NDArray prefix = Return hint ∧
    heap (state_of NDArray x) !! 1%positive = Some o ∧
    o !! "pith" = Some x ∧
    classified o hint ∧
    sleuth_wf o.
Proof.
  destruct (proj1 returned_sleuth_wf (top_kwargs NDArray x) empty_state
              (state_of NDArray x) 1%positive)
    as (func & pith & raw & ci & ep & ri & hint & o & Hbinds & Hsanify & Ho
        & _ & Hpith & _ & _ & _ & Hclassified & Hwf);
    [vm_compute; reflexivity|].
  destruct Hbinds as (_ & _ & Hx & Hraw & _ & Hprefix & _).
  assert (Some pith = Some x) as [= ->]
    by (rewrite <- Hx; vm_compute; reflexivity).
  assert (Some raw = Some NDArray) as [= ->]
    by (rewrite <- Hraw; vm_compute; reflexivity).
  assert (Some ep = Some prefix) as [= ->]
    by (rewrite <- Hprefix; vm_compute; reflexivity).
  by exists hint, o.
Defined.

Lemma CauseSleuth_preserves_heap_witness :
  heap (CauseSleuth (top_kwargs cls_int x) (state_of List_int x)).1
    !! 1%positive = Some (object_of List_int x).
Proof.
  eapply lookup_weaken;
    [|apply (proj1 (CauseSleuth_preserves_heap (top_kwargs cls_int x)
                      (state_of List_int x)))].
  vm_compute; reflexivity.
Defined.

Lemma permute_propagates_sanitizer_exception_witness :
  (permute 1%positive [("hint", VObject "typing.Unsupported")]
     (state_of List_int x)).2
  = Raise (HintError "BeartypeDecorHintPepUnsupportedException"
             "unsupported").
Proof.
  apply (permute_propagates_sanitizer_exception 1%positive
           [("hint", VObject "typing.Unsupported")] (state_of List_int x)
           (VCallable "muh_func") x (VObject "typing.Unsupported")
           (VStr EmptyString) prefix VNone).
  - vm_compute; reflexivity.
  - repeat split; vm_compute; reflexivity.
  - vm_compute; reflexivity.
Defined.

Lemma select_getter_reads_three_slots_witness :
  ∃ events outcome,
    select_getter 1%positive (state_of List_int x)
    = (after (state_of List_int x) events, outcome) ∧
    select_getter 1%positive (state_of List_int (VStr "y"))
    = (after (state_of List_int (VStr "y")) events, outcome).
Proof.
  apply (select_getter_reads_three_slots _ _ 1%positive
           (object_of List_int x) (object_of List_int (VStr "y")));
    vm_compute; reflexivity.
Defined.

End MoreRuns.

(** * Properties of [BeartypeConf] *)

Section ConfEquality.
Import Conf.

Lemma py_eq_refl a : py_eq a a = true.
Proof.
  destruct a as [|b|z|m|i]; cbn; try done.
  - by destruct b.
  - apply Z.eqb_refl.
  - by apply bool_decide_eq_true.
  - by apply bool_decide_eq_true.
Qed.

Lemma py_eq_sym a b : py_eq a b = py_eq b a.
Proof.
  destruct a as [|x|x|x|x], b as [|y|y|y|y]; cbn; try done.
  - by destruct x, y.
  - apply Z.eqb_sym.
  - apply Z.eqb_sym.
  - apply Z.eqb_sym.
  - apply bool_decide_ext. split; congruence.
  - apply bool_decide_ext. split; congruence.
Qed.

Lemma py_eq_trans a b c :
  py_eq a b = true → py_eq b c = true → py_eq a c = true.
Proof.
  destruct a as [|x|x|x|x], b as [|y|y|y|y], c as [|z|z|z|z]; cbn;
    try done;
    rewrite ?Z.eqb_eq, ?bool_decide_eq_true, ?Bool.eqb_true_iff;
    try congruence; try (destruct x, y; cbn; congruence);
    try (destruct y, z; cbn; congruence);
    try (destruct x, z; cbn; intros; subst; cbn in *; congruence).
Qed.

Lemma args_eq_refl a : args_eq a a = true.
Proof. unfold args_eq. by rewrite !py_eq_refl. Qed.

Lemma args_eq_sym a b : args_eq a b = args_eq b a.
Proof.
  unfold args_eq.
  by rewrite (py_eq_sym (claw_is_pep526 a)), (py_eq_sym (is_color a)),
    (py_eq_sym (is_debug a)), (py_eq_sym (is_pep484_tower a)),
    (py_eq_sym (strategy a)).
Qed.

Lemma args_eq_trans a b c :
  args_eq a b = true → args_eq b c = true → args_eq a c = true.
Proof.
  unfold args_eq. rewrite !andb_true_iff.
  intros ((((H1 & H2) & H3) & H4) & H5) ((((K1 & K2) & K3) & K4) & K5).
  repeat split; eapply py_eq_trans; eauto.
Qed.

(** Equal tuples are equal to the same keys. *)
Lemma args_eq_congr a b k : args_eq a b = true → args_eq k a = args_eq k b.
Proof.
  intros Hab. destruct (args_eq k b) eqn:Hkb.
  - eapply args_eq_trans; [exact Hkb|]. by rewrite args_eq_sym.
  - destruct (args_eq k a) eqn:Hka; [|done].
    rewrite <- Hkb. symmetry. by eapply args_eq_trans.
Qed.

Lemma dict_get_congr a b d : args_eq a b = true → dict_get a d = dict_get b d.
Proof.
  intros Hab. unfold dict_get. f_equal.
  induction d as [|[k v] rest IH]; cbn; [done|].
  by rewrite (args_eq_congr a b k Hab), IH.
Qed.

Lemma dict_get_Some key d conf :
  dict_get key d = Some conf →
  ∃ k, (k, conf) ∈ d ∧ args_eq k key = true.
Proof.
  unfold dict_get. destruct (find _ d) as [[k v]|] eqn:Hfind; [|done].
  intros [= <-]. apply find_some in Hfind as [Hin Heq].
  exists k. split; [by apply list_elem_of_In | done].
Qed.

Lemma dict_get_None key d k conf :
  dict_get key d = None → (k, conf) ∈ d → args_eq k key = false.
Proof.
  unfold dict_get. destruct (find _ d) as [kv|] eqn:Hfind; [done|].
  intros _ Hin%list_elem_of_In. exact (find_none _ _ Hfind _ Hin).
Qed.

Lemma dict_set_miss key v d :
  dict_get key d = None → dict_set key v d = d ++ [(key, v)].
Proof.
  unfold dict_get. induction d as [|[k x] rest IH]; cbn; [done|].
  destruct (args_eq k key); [done|]. intros Hnone. by rewrite IH.
Qed.

Lemma dict_get_app key d d' :
  dict_get key (d ++ d')
  = match dict_get key d with Some v => Some v | None => dict_get key d' end.
Proof.
  unfold dict_get. induction d as [|[k x] rest IH]; cbn; [done|].
  destruct (args_eq k key); [done | exact IH].
Qed.

End ConfEquality.

Section ConfNew.
Import Conf.
Variable repr : Param → string.
Implicit Types (w : World) (args key : Args) (conf : loc).

(** The world after the instantiation of a new configuration. *)
Local Abbreviation instantiated w args :=
  (mkWorld
     (<[fresh (dom (confs w)) :=
          mkConf (claw_is_pep526 args) (is_color args) (is_debug args)
            (is_pep484_tower args) (strategy args)]> (confs w))
     (beartype_conf_args_to_conf w ++ [(args, fresh (dom (confs w)))])
     (<[fresh (dom (confs w)) := fresh (dom (confs w))]>
        (beartype_conf_id_to_conf w))).

Lemma new_hit w args conf :
  dict_get args (beartype_conf_args_to_conf w) = Some conf →
  __new__ repr args w = (w, Returned conf).
Proof. intros Hget. unfold __new__. by rewrite Hget. Qed.

Lemma new_miss_valid w args :
  dict_get args (beartype_conf_args_to_conf w) = None →
  valid args →
  __new__ repr args w = (instantiated w args, Returned (fresh (dom (confs w)))).
Proof.
  intros Hget (H1 & H2 & H3 & H4 & H5). unfold __new__.
  rewrite Hget, H1, H2, H3, H4, H5. cbn [negb]. by rewrite dict_set_miss.
Qed.

Lemma valid_dec args : valid args ∨ ¬ valid args.
Proof.
  unfold valid.
  destruct (isinstance_bool (claw_is_pep526 args)),
    (isinstance_NoneTypeOr_bool (is_color args)),
    (isinstance_bool (is_debug args)),
    (isinstance_bool (is_pep484_tower args)),
    (isinstance_BeartypeStrategy (strategy args));
    first [left; done | right; intros (? & ? & ? & ? & ?); done].
Qed.

Lemma new_miss_invalid w args :
  dict_get args (beartype_conf_args_to_conf w) = None →
  ¬ valid args →
  ∃ msg, __new__ repr args w = (w, BeartypeConfException msg).
Proof.
  intros Hget Hinvalid. unfold __new__, valid in *. rewrite Hget.
  destruct (isinstance_bool (claw_is_pep526 args)); [|eauto].
  destruct (isinstance_NoneTypeOr_bool (is_color args)); [|eauto].
  destruct (isinstance_bool (is_debug args)); [|eauto].
  destruct (isinstance_bool (is_pep484_tower args)); [|eauto].
  destruct (isinstance_BeartypeStrategy (strategy args)); [|eauto].
  by destruct Hinvalid.
Qed.

Lemma new_Returned_inv w args w' conf :
  __new__ repr args w = (w', Returned conf) →
  (dict_get args (beartype_conf_args_to_conf w) = Some conf ∧ w' = w) ∨
  (dict_get args (beartype_conf_args_to_conf w) = None ∧ valid args ∧
   conf = fresh (dom (confs w)) ∧ w' = instantiated w args).
Proof.
  destruct (dict_get args (beartype_conf_args_to_conf w)) as [c|] eqn:Hget.
  - rewrite (new_hit _ _ _ Hget). intros [= <- <-]. by left.
  - destruct (valid_dec args) as [Hvalid|Hinvalid].
    + rewrite (new_miss_valid _ _ Hget Hvalid). intros [= <- <-]. by right.
    + destruct (new_miss_invalid _ _ Hget Hinvalid) as [msg ->]. done.
Qed.

(** The state after a call is the state before it or that state with one
    more configuration. *)
Lemma new_world w args :
  (__new__ repr args w).1 = w ∨
  (dict_get args (beartype_conf_args_to_conf w) = None ∧ valid args ∧
   (__new__ repr args w).1 = instantiated w args).
Proof.
  destruct (dict_get args (beartype_conf_args_to_conf w)) as [c|] eqn:Hget.
  - rewrite (new_hit _ _ _ Hget). by left.
  - destruct (valid_dec args) as [Hvalid|Hinvalid].
    + rewrite (new_miss_valid _ _ Hget Hvalid). by right.
    + destruct (new_miss_invalid _ _ Hget Hinvalid) as [msg ->]. by left.
Qed.

(** A cached entry stays cached. *)
Lemma new_keeps_entry w args key conf :
  dict_get key (beartype_conf_args_to_conf w) = Some conf →
  dict_get key (beartype_conf_args_to_conf (__new__ repr args w).1)
  = Some conf.
Proof.
  intros Hget. destruct (new_world w args) as [->|(_ & _ & ->)]; [done|].
  cbn [beartype_conf_args_to_conf]. by rewrite dict_get_app, Hget.
Qed.

Lemma new_caches w args w' conf :
  __new__ repr args w = (w', Returned conf) →
  dict_get args (beartype_conf_args_to_conf w') = Some conf.
Proof.
  intros [[Hget ->]|(Hget & _ & -> & ->)]%new_Returned_inv; [done|].
  cbn [beartype_conf_args_to_conf]. rewrite dict_get_app, Hget.
  unfold dict_get. cbn [find fst]. by rewrite args_eq_refl.
Qed.

(** Memoization: once [__new__] has returned a configuration for some
    parameters, it returns that same configuration, and changes nothing,
    for these parameters and for all parameters equal to them, after any
    number of further calls. *)
Theorem new_memoized w args w1 conf args' (later : list Args) :
  __new__ repr args w = (w1, Returned conf) →
  args_eq args' args = true →
  let w2 := foldl (λ w a, (__new__ repr a w).1) w1 later in
  __new__ repr args' w2 = (w2, Returned conf).
Proof.
  intros Hnew%new_caches Heq w2. apply new_hit.
  rewrite (dict_get_congr args' args _ Heq). subst w2.
  revert w1 Hnew. induction later as [|a later IH]; intros w1 Hget; [done|].
  cbn [foldl]. apply IH. by apply new_keeps_entry.
Qed.

End ConfNew.

Section ConfInvariant.
Import Conf.
Variable repr : Param → string.
Implicit Types (w : World) (args key : Args) (conf : loc).


Lemma settings_mkConf args :
  settings (mkConf (claw_is_pep526 args) (is_color args) (is_debug args)
              (is_pep484_tower args) (strategy args)) = args.
Proof. by destruct args. Qed.

Lemma cache_ok_instantiated w args :
  cache_ok w →
  dict_get args (beartype_conf_args_to_conf w) = None →
  valid args →
  cache_ok
    (mkWorld
       (<[fresh (dom (confs w)) :=
            mkConf (claw_is_pep526 args) (is_color args) (is_debug args)
              (is_pep484_tower args) (strategy args)]> (confs w))
       (beartype_conf_args_to_conf w ++ [(args, fresh (dom (confs w)))])
       (<[fresh (dom (confs w)) := fresh (dom (confs w))]>
          (beartype_conf_id_to_conf w))).
Proof.
  intros [Hentries Hdistinct] Hget Hvalid.
  assert (confs w !! fresh (dom (confs w)) = None) as Hfresh
    by apply not_elem_of_dom, is_fresh.
  split; cbn [confs beartype_conf_args_to_conf beartype_conf_id_to_conf].
  - intros key conf [Hin|Hin%list_elem_of_singleton]%elem_of_app.
    + destruct (Hentries key conf Hin) as (Hv & Hid & c & Hc & Hs).
      assert (fresh (dom (confs w)) ≠ conf) by congruence.
      split; [done|]. rewrite !lookup_insert_ne by done. eauto.
    + injection Hin as -> ->. split; [done|].
      rewrite !lookup_insert_eq. split; [done|].
      eexists. split; [done|]. apply settings_mkConf.
  - intros i j key1 conf1 key2 conf2
      [Hi|[Hi Hi'%list_lookup_singleton_Some]]%lookup_app_Some
      [Hj|[Hj Hj'%list_lookup_singleton_Some]]%lookup_app_Some Heq.
    + by eapply Hdistinct.
    + destruct Hj' as [_ [= <- <-]].
      apply list_elem_of_lookup_2 in Hi.
      by rewrite (dict_get_None _ _ _ _ Hget Hi) in Heq.
    + destruct Hi' as [_ [= <- <-]].
      apply list_elem_of_lookup_2 in Hj. rewrite args_eq_sym in Heq.
      by rewrite (dict_get_None _ _ _ _ Hget Hj) in Heq.
    + destruct Hi' as [Hi' _], Hj' as [Hj' _]. lia.
Qed.

Lemma cache_ok_empty : cache_ok empty_world.
Proof.
  split; cbn.
  - intros key conf Hin. by apply elem_of_nil in Hin.
  - intros i j key1 conf1 key2 conf2 Hi. by rewrite lookup_nil in Hi.
Qed.

Lemma cache_ok_new w args : cache_ok w → cache_ok (__new__ repr args w).1.
Proof.
  intros Hok.
  destruct (new_world repr w args) as [->|(Hget & Hvalid & ->)]; [done|].
  by apply cache_ok_instantiated.
Qed.

(** The caches are consistent before any call and stay so after every
    call, whatever its parameters and its outcome: each cached key is valid,
    no two cached keys are equal, and each is mapped to a configuration that
    stores exactly that key and is registered under its [id]. *)
Theorem cache_ok_kept :
  cache_ok empty_world ∧
  ∀ w args, cache_ok w → cache_ok (__new__ repr args w).1.
Proof. split; [exact cache_ok_empty | exact cache_ok_new]. Qed.

(** With consistent caches, a configuration returned by [__new__] is stored
    with valid settings that are equal to the parameters of the call, and
    is registered under its [id]. *)
Theorem new_returns_valid_settings w args w' conf :
  cache_ok w →
  __new__ repr args w = (w', Returned conf) →
  ∃ c, confs w' !! conf = Some c ∧
       valid (settings c) ∧
       args_eq (settings c) args = true ∧
       beartype_conf_id_to_conf w' !! conf = Some conf.
Proof.
  intros [Hentries _]
    [[Hget ->]|(Hget & Hvalid & -> & ->)]%new_Returned_inv.
  - apply dict_get_Some in Hget as (key & Hin & Heq).
    destruct (Hentries key conf Hin) as (Hv & Hid & c & Hc & <-). eauto.
  - cbn [confs beartype_conf_id_to_conf]. rewrite !lookup_insert_eq.
    eexists. split; [done|]. rewrite settings_mkConf.
    split; [done|]. split; [apply args_eq_refl | done].
Qed.

(** With consistent caches, [__eq__] on two cached configurations is
    identity: it returns [True] when they are the same object and [False]
    otherwise. *)
Theorem eq_is_identity_on_cached w key1 conf1 key2 conf2 :
  cache_ok w →
  (key1, conf1) ∈ beartype_conf_args_to_conf w →
  (key2, conf2) ∈ beartype_conf_args_to_conf w →
  __eq__ w conf1 (OConf conf2) = Some (CBool (bool_decide (conf1 = conf2))).
Proof.
  intros [Hentries Hdistinct] Hin1 Hin2.
  destruct (Hentries key1 conf1 Hin1) as (_ & _ & c1 & Hc1 & Hs1).
  destruct (Hentries key2 conf2 Hin2) as (_ & _ & c2 & Hc2 & Hs2).
  unfold __eq__. rewrite Hc1, Hc2. cbn. do 2 f_equal.
  change (args_eq (settings c1) (settings c2) = bool_decide (conf1 = conf2)).
  rewrite Hs1, Hs2.
  apply list_elem_of_lookup_1 in Hin1 as [i Hi], Hin2 as [j Hj].
  case_bool_decide as Hconf.
  - subst conf2. assert (key1 = key2) as -> by congruence.
    apply args_eq_refl.
  - destruct (args_eq key1 key2) eqn:Heq; [|done].
    assert (i = j) as -> by (by eapply Hdistinct). congruence.
Qed.

End ConfInvariant.

(** * Properties of the interpreter version flags *)

Section Versions.
Import Utilpy.

Lemma tuple_ge_4_0_3_7 (version_info : list Z) :
  tuple_ge version_info [4; 0]%Z = true →
  tuple_ge version_info [3; 7]%Z = true.
Proof.
  destruct version_info as [|major [|minor rest]]; cbn; try done.
  - destruct (major =? 4)%Z eqn:H4; [done|]. intros H%Z.ltb_lt.
    destruct (major =? 3)%Z eqn:H3; [apply Z.eqb_eq in H3; lia|].
    apply Z.ltb_lt. lia.
  - destruct (major =? 4)%Z eqn:H4.
    + apply Z.eqb_eq in H4 as ->. done.
    + intros H%Z.ltb_lt.
      destruct (major =? 3)%Z eqn:H3; [apply Z.eqb_eq in H3; lia|].
      apply Z.ltb_lt. lia.
Qed.

(** [IS_PYTHON_AT_LEAST_3_7] is [sys.version_info >= (3, 7)]: the disjunct
    [IS_PYTHON_AT_LEAST_4_0] adds nothing, since it implies the comparison;
    in particular the first flag implies the second. *)
Theorem at_least_3_7_is_comparison (version_info : list Z) :
  IS_PYTHON_AT_LEAST_3_7 version_info = tuple_ge version_info [3; 7]%Z ∧
  (IS_PYTHON_AT_LEAST_4_0 version_info = true →
   IS_PYTHON_AT_LEAST_3_7 version_info = true).
Proof.
  unfold IS_PYTHON_AT_LEAST_3_7, IS_PYTHON_AT_LEAST_4_0. split.
  - destruct (tuple_ge version_info [4; 0]%Z) eqn:H4; [|done].
    by rewrite (tuple_ge_4_0_3_7 _ H4).
  - by intros ->.
Qed.

End Versions.

(** * Runs of [BeartypeConf] and of the version flags *)

Section ConfRuns.
Import Conf.

(** The parameters of [BeartypeConf(is_debug=0)]. *)
Local Abbreviation debug_zero :=
  (mkArgs (PBool true) PNone (PInt 0) (PBool false) (PStrategy "O1")).

(** The parameters of [BeartypeConf(is_debug=True, strategy=On)]. *)
Local Abbreviation debug_On :=
  (mkArgs (PBool true) PNone (PBool true) (PBool false) (PStrategy "On")).

Lemma imported_ok : cache_ok imported.1.
Proof. apply cache_ok_new, cache_ok_empty. Qed.

(** After the default configuration and one more, [BeartypeConf(is_debug=0)]
    returns the default configuration: [0] is equal to [False]. *)
Lemma new_memoized_witness :
  let w2 := foldl (λ w a, (__new__ repr_param a w).1) imported.1 [debug_On] in
  __new__ repr_param debug_zero w2 = (w2, Returned 1%positive).
Proof.
  apply (new_memoized repr_param empty_world default_args imported.1
           1%positive debug_zero [debug_On]); vm_compute; reflexivity.
Defined.


Lemma cache_ok_kept_witness :
  cache_ok (__new__ repr_param debug_On imported.1).1.
Proof.
  apply (proj2 (cache_ok_kept repr_param)), (proj2 (cache_ok_kept repr_param)),
    (proj1 (cache_ok_kept repr_param)).
Defined.

Lemma new_returns_valid_settings_witness :
  ∃ c, confs imported.1 !! 1%positive = Some c ∧
       valid (settings c) ∧
       args_eq (settings c) debug_zero = true ∧
       beartype_conf_id_to_conf imported.1 !! 1%positive = Some 1%positive.
Proof.
  apply (new_returns_valid_settings repr_param imported.1 debug_zero);
    [exact imported_ok | vm_compute; reflexivity].
Defined.

Lemma eq_is_identity_on_cached_witness :
  let w := (__new__ repr_param debug_On imported.1).1 in
  __eq__ w 1%positive (OConf 2%positive) = Some (CBool false) ∧
  __eq__ w 2%positive (OConf 2%positive) = Some (CBool true).
Proof.
  assert (cache_ok (__new__ repr_param debug_On imported.1).1) as Hok
    by apply cache_ok_new, imported_ok.
  split.
  - apply (eq_is_identity_on_cached _ default_args 1%positive debug_On
             2%positive Hok); apply list_elem_of_In; vm_compute; tauto.
  - apply (eq_is_identity_on_cached _ debug_On 2%positive debug_On
             2%positive Hok); apply list_elem_of_In; vm_compute; tauto.
Defined.

Lemma at_least_3_7_is_comparison_witness :
  Utilpy.IS_PYTHON_AT_LEAST_3_7 [3; 11; 4]%Z = true ∧
  Utilpy.IS_PYTHON_AT_LEAST_3_7 [4; 0; 0]%Z = true ∧
  Utilpy.IS_PYTHON_AT_LEAST_3_7 [3; 6; 15]%Z = false.
Proof.
  split; [|split].
  - by rewrite (proj1 (at_least_3_7_is_comparison [3; 11; 4]%Z)).
  - apply (proj2 (at_least_3_7_is_comparison [4; 0; 0]%Z)). reflexivity.
  - by rewrite (proj1 (at_least_3_7_is_comparison [3; 6; 15]%Z)).
Defined.

End ConfRuns.
